(** * TwitterGram: the graph-based n-gram Markov model ([models/markov.py])

    A shallow embedding of the class [Markov] and the properties of its
    methods.  Python objects are modelled as follows.

    - A Python [dict] keeps its keys in insertion order and the sampler
      depends on that order, so a dict is an association list with at most
      one binding per key ([ODict.odict]); assigning to a present key keeps its
      position, assigning to a new key appends.
    - Tokens are Python values; the universe [pyval] holds the strings, the
      integers and [None], on which Python's key equality is structural.
    - Counts are Python integers ([Z], unbounded).
    - A method is a computation [M A] over the instance: it returns a value
      or raises, and hands back the instance as it is at that moment.
    - [int / int] and the float operations of the sampler are the fields of
      the class [PyFloat]; [Py64] instantiates it with IEEE binary64.
    - [random.random()] is an explicit threshold (one draw), or a stream
      [nat -> float] of draws for the walk. *)

From Stdlib Require Import ZArith String Bool Lia PeanoNat.
From Stdlib Require Import Floats SpecFloat.
From Stdlib Require Import List.
Import ListNotations.

Set Implicit Arguments.
Local Open Scope Z_scope.

(** ** Decidable equality of dictionary keys *)

Class EqDec (A : Type) := eq_dec : forall x y : A, {x = y} + {x <> y}.

#[export] Instance string_EqDec : EqDec string := string_dec.

(** ** Python values used as tokens *)

Inductive pyval : Type :=
| VNone
| VInt (z : Z)
| VStr (s : string).

#[export] Instance pyval_EqDec : EqDec pyval.
Proof.
  intros x y. unfold EqDec in *.
  decide equality; [apply Z.eq_dec | apply string_dec].
Defined.

#[export] Instance list_EqDec {A} `{EqDec A} : EqDec (list A).
Proof. intros x y. apply list_eq_dec. exact eq_dec. Defined.

Definition is_str (v : pyval) : bool :=
  match v with VStr _ => true | _ => false end.

(** ** Insertion-ordered dictionaries *)

Module ODict.
Section Defs.
Context {K V : Type} `{EqDec K}.

Definition odict := list (K * V).

Definition empty : odict := [].

(** [d.get(k)] *)
Fixpoint get (k : K) (d : odict) : option V :=
  match d with
  | [] => None
  | (k', v) :: d' => if eq_dec k k' then Some v else get k d'
  end.

(** [k in d] *)
Definition mem (k : K) (d : odict) : bool :=
  match get k d with Some _ => true | None => false end.

(** [d[k] = v] *)
Fixpoint set (k : K) (v : V) (d : odict) : odict :=
  match d with
  | [] => [(k, v)]
  | (k', v') :: d' =>
      if eq_dec k k' then (k', v) :: d' else (k', v') :: set k v d'
  end.

Definition keys (d : odict) : list K := map fst d.
Definition values (d : odict) : list V := map snd d.

(** The representation invariant of a dict: one binding per key. *)
Definition wf (d : odict) : Prop := NoDup (keys d).
End Defs.
Arguments odict : clear implicits.
End ODict.

(** ** Exceptions and method computations *)

Inductive exn : Type :=
| TypeError
| ValueError
| IndexError
| ZeroDivisionError.

Inductive outcome (A : Type) : Type :=
| Ok (a : A)
| Raise (e : exn).
Arguments Ok {A} a.
Arguments Raise {A} e.

(** The instance: [self.n] and [self.graph]. *)
Record Markov : Type := mkMarkov {
  n : Z;
  graph : ODict.odict string (ODict.odict pyval Z)
}.

Definition M (A : Type) : Type := Markov -> outcome A * Markov.

Definition ret {A} (a : A) : M A := fun self => (Ok a, self).

Definition raise {A} (e : exn) : M A := fun self => (Raise e, self).

Definition bind {A B} (c : M A) (k : A -> M B) : M B :=
  fun self =>
    match c self with
    | (Ok a, self') => k a self'
    | (Raise e, self') => (Raise e, self')
    end.

Definition get_self : M Markov := fun self => (Ok self, self).

Definition set_graph (g : ODict.odict string (ODict.odict pyval Z)) : M unit :=
  fun self => (Ok tt, mkMarkov self.(n) g).

Definition lift {A} (r : outcome A) : M A := fun self => (r, self).

Notation "x <- c ;; k" := (bind c (fun x => k))
  (at level 61, c at next level, right associativity).

(** ** Tuple and string primitives *)

(** [''.join(items)]: a [TypeError] unless every item is a [str]. *)
Fixpoint as_strs (items : list pyval) : option (list string) :=
  match items with
  | [] => Some []
  | VStr s :: rest =>
      match as_strs rest with
      | Some ss => Some (s :: ss)
      | None => None
      end
  | _ :: _ => None
  end.

Definition join (items : list pyval) : outcome string :=
  match as_strs items with
  | Some ss => Ok (String.concat "" ss)
  | None => Raise TypeError
  end.

(** [t[-1]]: an [IndexError] on the empty tuple. *)
Definition last_item (t : list pyval) : outcome pyval :=
  match t with
  | [] => Raise IndexError
  | x :: rest => Ok (last rest x)
  end.

(** [t[:-1]] *)
Definition but_last (t : list pyval) : list pyval := removelast t.

(** ** The class [Markov] *)

(** [Markov(n)]: [type(n) != int] is a [TypeError], [n < 2] a
    [ValueError]; otherwise the instance with an empty graph. *)
Definition __init__ (arg : pyval) : outcome Markov :=
  match arg with
  | VInt z =>
      if z <? 2 then Raise ValueError
      else Ok (mkMarkov z ODict.empty)
  | _ => Raise TypeError
  end.

(** [self.add_ngram( *ngram )] *)
Definition add_ngram (ngram : list pyval) : M unit :=
  self <- get_self ;;
  if negb (Z.of_nat (length ngram) =? self.(n)) then raise ValueError
  else
    source <- lift (join (but_last ngram)) ;;
    destination <- lift (last_item ngram) ;;
    match ODict.get source self.(graph) with
    | None =>
        (* source has never been recorded *)
        set_graph (ODict.set source [(destination, 1)] self.(graph))
    | Some suffixes =>
        match ODict.get destination suffixes with
        | None =>
            (* source recorded, but not preceding destination *)
            set_graph (ODict.set source (ODict.set destination 1 suffixes)
                                 self.(graph))
        | Some c =>
            (* source recorded, leading to destination *)
            set_graph (ODict.set source
                                 (ODict.set destination (c + 1) suffixes)
                                 self.(graph))
        end
    end.

(** ** Floats

    The float operations the class uses: [a / b] on two integers (true
    division, for a nonzero divisor), the literal [0.0], [+] and [>=]. *)

Class PyFloat : Type := {
  pyfloat : Type;
  truediv : Z -> Z -> pyfloat;
  fzero : pyfloat;
  fadd : pyfloat -> pyfloat -> pyfloat;
  fge : pyfloat -> pyfloat -> bool
}.

(** IEEE binary64, as in CPython: [a / b] is the quotient of the two
    integers rounded once, to nearest even.  (A quotient beyond the float
    range, where CPython raises [OverflowError], is outside this model; it
    does not arise when [0 < a <= b].) *)
Definition Z2SF (z : Z) : spec_float :=
  match z with
  | Z0 => S754_zero false
  | Zpos p => S754_finite false p 0
  | Zneg p => S754_finite true p 0
  end.

Definition py64_truediv (a b : Z) : PrimFloat.float :=
  SF2Prim (SFdiv prec emax (Z2SF a) (Z2SF b)).

Definition Py64 : PyFloat := {|
  pyfloat := PrimFloat.float;
  truediv := py64_truediv;
  fzero := 0%float;
  fadd := PrimFloat.add;
  fge := fun x y => PrimFloat.leb y x
|}.

Section Methods.
Context {F : PyFloat}.

(** [sum(d.values())] *)
Definition sum_values (d : ODict.odict pyval Z) : Z :=
  fold_left Z.add (ODict.values d) 0.

(** The loop of [get_suffixes]:
    [for suffix, weight in ...items(): mapping[suffix] = weight / total_weight] *)
Fixpoint fill_mapping (total_weight : Z) (items : list (pyval * Z))
         (mapping : ODict.odict pyval pyfloat)
  : outcome (ODict.odict pyval pyfloat) :=
  match items with
  | [] => Ok mapping
  | (suffix, weight) :: rest =>
      if total_weight =? 0 then Raise ZeroDivisionError
      else fill_mapping total_weight rest
             (ODict.set suffix (truediv weight total_weight) mapping)
  end.

(** [self.get_suffixes( *prefix )] *)
Definition get_suffixes (prefix : list pyval)
  : M (ODict.odict pyval pyfloat) :=
  self <- get_self ;;
  if negb (Z.of_nat (length prefix) =? self.(n) - 1)
  then raise ValueError
  else
    prefix_string <- lift (join prefix) ;;
    match ODict.get prefix_string self.(graph) with
    | None => ret ODict.empty
    | Some suffixes =>
        lift (fill_mapping (sum_values suffixes) suffixes ODict.empty)
    end.

(** [self.get_ngrams( *prefix )]; the keys are the tuples
    [prefix + (suffix,)]. *)
Definition get_ngrams (prefix : list pyval)
  : M (ODict.odict (list pyval) pyfloat) :=
  suffix_mapping <- get_suffixes prefix ;;
  ret (fold_left
         (fun ngram_mapping (item : pyval * pyfloat) =>
            let (suffix, probability) := item in
            ODict.set (prefix ++ [suffix]) probability ngram_mapping)
         suffix_mapping ODict.empty).

(** The loop of [random_suffix]; falling off its end returns [None]. *)
Fixpoint scan (threshhold upto : pyfloat) (items : list (pyval * pyfloat))
  : pyval :=
  match items with
  | [] => VNone
  | (suffix, probability) :: rest =>
      let upto' := fadd upto probability in
      if fge upto' threshhold then suffix
      else scan threshhold upto' rest
  end.

(** [self.random_suffix( *prefix )], where [threshhold] is the value
    [random.random()] returns. *)
Definition random_suffix (threshhold : pyfloat) (prefix : list pyval)
  : M pyval :=
  mapping <- get_suffixes prefix ;;
  ret (scan threshhold fzero mapping).

(** [self.random_ngram( *prefix )] *)
Definition random_ngram (threshhold : pyfloat) (prefix : list pyval)
  : M (list pyval) :=
  suffix <- random_suffix threshhold prefix ;;
  ret (prefix ++ [suffix]).
End Methods.

(** ** Merging *)

(** The inner loop of [update]: [for suffix in suffixes], on
    [self.graph[prefix]]; the value added is the one [suffixes] binds to
    [suffix]. *)
Definition update_suffixes (mine suffixes : ODict.odict pyval Z)
  : ODict.odict pyval Z :=
  fold_left
    (fun (acc : ODict.odict pyval Z) (item : pyval * Z) =>
       let (suffix, c) := item in
       match ODict.get suffix acc with
       | None => ODict.set suffix c acc
       | Some c0 => ODict.set suffix (c0 + c) acc
       end)
    suffixes mine.

(** The outer loop: [for prefix, suffixes in markov_model.graph.items()]. *)
Definition update_graph (g other : ODict.odict string (ODict.odict pyval Z))
  : ODict.odict string (ODict.odict pyval Z) :=
  fold_left
    (fun (acc : ODict.odict string (ODict.odict pyval Z))
         (item : string * ODict.odict pyval Z) =>
       let (prefix, suffixes) := item in
       match ODict.get prefix acc with
       | None => ODict.set prefix suffixes acc     (* suffixes.copy() *)
       | Some mine => ODict.set prefix (update_suffixes mine suffixes) acc
       end)
    other g.

(** [self.update(markov_model)] *)
Definition update (markov_model : Markov) : M unit :=
  self <- get_self ;;
  if negb (self.(n) =? markov_model.(n)) then raise ValueError
  else set_graph (update_graph self.(graph) markov_model.(graph)).

(** ** The random walk *)

(** [collections.deque] with [maxlen]: [append] on a full deque drops the
    leftmost item; [deque(iterable, maxlen)] appends the items in turn. *)
Definition deque_append (maxlen : Z) (q : list pyval) (x : pyval)
  : list pyval :=
  if Z.of_nat (length q) <? maxlen then q ++ [x] else tl (q ++ [x]).

Definition deque_init (maxlen : Z) (items : list pyval) : list pyval :=
  fold_left (deque_append maxlen) items [].

(** The two local variables of [random_sequence]. *)
Record walk : Type := mkWalk {
  prefix_queue : list pyval;
  sequence : list pyval
}.

(** What one turn of [while True] does: go round again, or [return]. *)
Inductive turn : Type :=
| Continue (w : walk)
| Return (result : list pyval).

Section Walk.
Context {F : PyFloat}.

(** The body of the loop; [threshhold] is this turn's draw. *)
Definition walk_step (maxlen : Z) (threshhold : pyfloat) (w : walk)
  : M turn :=
  suffix <- random_suffix threshhold w.(prefix_queue) ;;
  let sequence' := w.(sequence) ++ [suffix] in
  if eq_dec suffix (VStr "") then ret (Return sequence')
  else ret (Continue (mkWalk (deque_append maxlen w.(prefix_queue) suffix)
                             sequence')).

(** [while True], cut after [fuel] turns ([None]: still running); the
    turn numbered [i] uses the draw [rand i]. *)
Fixpoint walk_loop (fuel : nat) (maxlen : Z) (rand : nat -> pyfloat)
         (i : nat) (w : walk) : M (option (list pyval)) :=
  match fuel with
  | O => ret None
  | S fuel' =>
      t <- walk_step maxlen (rand i) w ;;
      match t with
      | Return result => ret (Some result)
      | Continue w' => walk_loop fuel' maxlen rand (S i) w'
      end
  end.

(** [self.random_sequence( *prefix )] *)
Definition random_sequence (fuel : nat) (rand : nat -> pyfloat)
           (prefix : list pyval) : M (option (list pyval)) :=
  self <- get_self ;;
  let prefix_length := self.(n) - 1 in
  if negb (Z.of_nat (length prefix) =? prefix_length)
  then raise ValueError
  else
    let q := deque_init prefix_length prefix in
    walk_loop fuel prefix_length rand 0 (mkWalk q q).

(** The first [j] turns of the loop, keeping the loop's variables. *)
Fixpoint walk_iter (j : nat) (maxlen : Z) (rand : nat -> pyfloat)
         (i : nat) (w : walk) : M turn :=
  match j with
  | O => ret (Continue w)
  | S j' =>
      t <- walk_step maxlen (rand i) w ;;
      match t with
      | Return result => ret (Return result)
      | Continue w' => walk_iter j' maxlen rand (S i) w'
      end
  end.
End Walk.

(** ** Reading the graph *)

(** [graph[prefix_key][suffix]], when both keys are present. *)
Definition lookup (g : ODict.odict string (ODict.odict pyval Z))
           (prefix_key : string) (suffix : pyval) : option Z :=
  match ODict.get prefix_key g with
  | Some suffixes => ODict.get suffix suffixes
  | None => None
  end.

(** The count of a pair, an absent entry counting as 0. *)
Definition count (g : ODict.odict string (ODict.odict pyval Z))
           (prefix_key : string) (suffix : pyval) : Z :=
  match lookup g prefix_key suffix with
  | Some c => c
  | None => 0
  end.

(** The instance a computation leaves behind, and what it returns. *)
Definition exec {A} (c : M A) (self : Markov) : Markov := snd (c self).
Definition result {A} (c : M A) (self : Markov) : outcome A := fst (c self).

(** ** The class invariant, as a check *)

Fixpoint nodupb {K} `{EqDec K} (l : list K) : bool :=
  match l with
  | [] => true
  | x :: rest =>
      negb (existsb (fun y => if eq_dec x y then true else false) rest)
      && nodupb rest
  end.

Definition suffixes_ok (d : ODict.odict pyval Z) : bool :=
  nodupb (ODict.keys d) && forallb (fun c => 0 <? c) (ODict.values d).

Definition graph_ok (g : ODict.odict string (ODict.odict pyval Z)) : bool :=
  nodupb (ODict.keys g) && forallb suffixes_ok (ODict.values g).

(** [n >= 2], every dict has one binding per key, every count is
    positive. *)
Definition valid (self : Markov) : bool :=
  (2 <=? self.(n)) && graph_ok self.(graph).

(** ** Histories *)

Inductive reachable : Markov -> Prop :=
| reach_init (arg : pyval) (self : Markov) :
    __init__ arg = Ok self -> reachable self
| reach_add_ngram (self : Markov) (ngram : list pyval) :
    reachable self -> reachable (exec (add_ngram ngram) self)
| reach_update (self other : Markov) :
    reachable self -> reachable other -> reachable (exec (update other) self).

(** No entry lost, no count lowered. *)
Definition grows (g g' : ODict.odict string (ODict.odict pyval Z)) : Prop :=
  forall prefix_key suffix c,
    lookup g prefix_key suffix = Some c ->
    exists c', lookup g' prefix_key suffix = Some c' /\ c <= c'.

(** The sum of two counts of which either may be absent. *)
Definition opt_add (a b : option Z) : option Z :=
  match a, b with
  | None, None => None
  | Some x, None => Some x
  | None, Some y => Some y
  | Some x, Some y => Some (x + y)
  end.

(** The probability view of one prefix key as a list: every recorded
    suffix, in the order of [suffixes], with [count / total]. *)
Definition distribution {F : PyFloat} (suffixes : ODict.odict pyval Z)
  : ODict.odict pyval pyfloat :=
  map (fun item : pyval * Z =>
         (fst item, truediv (snd item) (sum_values suffixes)))
      suffixes.

(** ** Sample instances *)

(** [Markov(2)], then [add_ngram("the", "cat")] once and
    [add_ngram("the", "dog")] twice. *)
Definition the_cat_dog : Markov :=
  exec (add_ngram [VStr "the"; VStr "dog"])
    (exec (add_ngram [VStr "the"; VStr "dog"])
       (exec (add_ngram [VStr "the"; VStr "cat"])
          (mkMarkov 2 ODict.empty))).

(** [Markov(2)] after [add_ngram("a", s)] for seven suffixes [s]. *)
Definition seven_suffixes : Markov :=
  fold_left (fun self s => exec (add_ngram [VStr "a"; VStr s]) self)
            ["s1"; "s2"; "s3"; "s4"; "s5"; "s6"; "s7"]%string
            (mkMarkov 2 ODict.empty).

(** [Markov(2)] after [add_ngram("a", "")]: a walk from [("a",)] ends. *)
Definition a_then_end : Markov :=
  exec (add_ngram [VStr "a"; VStr ""]) (mkMarkov 2 ODict.empty).

(** The last [k] items of a list (all of it when it is shorter). *)
Definition lastn (k : nat) (l : list pyval) : list pyval :=
  skipn (length l - k) l.

(** [samples] are what the turns [i], [i + 1], ... of a walk draw when it
    has produced [produced] so far: the turn [i + j] samples a suffix for the
    last [k] tokens produced, and gets the item [j] of [samples] followed by
    the terminal [""]. *)
Definition draws {F : PyFloat} (self : Markov) (rand : nat -> pyfloat)
           (k i : nat) (produced samples : list pyval) : Prop :=
  forall j, (j <= length samples)%nat ->
    random_suffix (rand (i + j)%nat)
                  (lastn k (produced ++ firstn j samples)) self
    = (Ok (nth j (samples ++ [VStr ""]) VNone), self).

(** ** The class invariant, as a proposition *)

Definition SuffixesOK (d : ODict.odict pyval Z) : Prop :=
  ODict.wf d /\ forall s c, In (s, c) d -> 0 < c.

Definition GraphOK (g : ODict.odict string (ODict.odict pyval Z)) : Prop :=
  ODict.wf g /\ forall k d, In (k, d) g -> SuffixesOK d.

Definition Valid (self : Markov) : Prop :=
  2 <= n self /\ GraphOK (graph self).

(** The loop keeps the window full and equal to the last tokens of the
    sequence. *)
Definition window_ok (k : nat) (w : walk) : Prop :=
  length (prefix_queue w) = k /\ prefix_queue w = lastn k (sequence w).

(** Unfolding the plumbing of a method. *)
Ltac run_method :=
  unfold bind, get_self, lift, raise, ret, set_graph; simpl.

(** ** Totals and running sums *)

(** [sum(graph[prefix_key].values())], 0 for a key that is not recorded:
    the denominator [get_suffixes] uses. *)
Definition total (g : ODict.odict string (ODict.odict pyval Z))
           (prefix_key : string) : Z :=
  match ODict.get prefix_key g with
  | Some suffixes => sum_values suffixes
  | None => 0
  end.


(** Every [k + 1] consecutive items of [tokens] are a recorded n-gram of
    the instance: [k] strings, then a token with a positive count under
    their concatenation. *)
Definition recorded_ngrams (self : Markov) (k : nat) (tokens : list pyval)
  : Prop :=
  forall pre window x post,
    tokens = pre ++ window ++ x :: post ->
    length window = k ->
    exists ss c,
      window = map VStr ss
      /\ lookup (graph self) (String.concat "" ss) x = Some c
      /\ 0 < c.

(** * Facts *)

Unset Implicit Arguments.

(** ** Dictionaries *)

Module ODictFacts.
Section Facts.
Context {K V : Type} `{EqDec K}.
Implicit Types (d : ODict.odict K V) (k : K) (v : V).

Lemma get_set_same d k v : ODict.get k (ODict.set k v d) = Some v.
Proof.
  induction d as [|[k' v'] d IH]; simpl.
  - destruct (eq_dec k k); congruence.
  - destruct (eq_dec k k') as [E|E]; simpl.
    + destruct (eq_dec k k'); congruence.
    + destruct (eq_dec k k'); congruence.
Qed.

Lemma get_set_other d k k' v :
  k <> k' -> ODict.get k' (ODict.set k v d) = ODict.get k' d.
Proof.
  intros N. induction d as [|[k0 v0] d IH]; simpl.
  - destruct (eq_dec k' k); congruence.
  - destruct (eq_dec k k0) as [E|E]; simpl.
    + subst k0. destruct (eq_dec k' k); congruence.
    + destruct (eq_dec k' k0); congruence.
Qed.

Lemma get_none_not_in d k :
  ODict.get k d = None <-> ~ In k (ODict.keys d).
Proof.
  induction d as [|[k' v'] d IH]; simpl.
  - tauto.
  - destruct (eq_dec k k') as [E|E].
    + split; [discriminate | intros N; exfalso; apply N; left; congruence].
    + rewrite IH. split.
      * intros N [A|A]; [congruence | tauto].
      * intros N A. apply N. now right.
Qed.

Lemma get_some_in d k v : ODict.get k d = Some v -> In (k, v) d.
Proof.
  induction d as [|[k' v'] d IH]; simpl; [discriminate|].
  destruct (eq_dec k k') as [E|E].
  - intros [= <-]. left. congruence.
  - intros G. right. auto.
Qed.

Lemma in_get_some d k v :
  ODict.wf d -> In (k, v) d -> ODict.get k d = Some v.
Proof.
  unfold ODict.wf.
  induction d as [|[k' v'] d IH]; simpl; [tauto|].
  intros W I. inversion W as [|? ? N W']; subst.
  destruct I as [I|I].
  - injection I as -> ->. destruct (eq_dec k k); congruence.
  - destruct (eq_dec k k') as [E|E].
    + subst k'. exfalso. apply N.
      change (In (fst (k, v)) (map fst d)). now apply in_map.
    + auto.
Qed.

(** Assigning to a new key appends the binding. *)
Lemma set_absent d k v :
  ODict.get k d = None -> ODict.set k v d = d ++ [(k, v)].
Proof.
  induction d as [|[k' v'] d IH]; simpl; [reflexivity|].
  destruct (eq_dec k k') as [E|E]; [discriminate|].
  intros G. now rewrite IH.
Qed.

(** Assigning to a present key keeps the keys and their order. *)
Lemma keys_set_present d k v v0 :
  ODict.get k d = Some v0 -> ODict.keys (ODict.set k v d) = ODict.keys d.
Proof.
  induction d as [|[k' v'] d IH]; simpl; [discriminate|].
  destruct (eq_dec k k') as [E|E]; simpl; [reflexivity|].
  intros G. f_equal. auto.
Qed.

Lemma keys_set d k v :
  ODict.keys (ODict.set k v d) =
  match ODict.get k d with
  | Some _ => ODict.keys d
  | None => ODict.keys d ++ [k]
  end.
Proof.
  destruct (ODict.get k d) eqn:G.
  - eapply keys_set_present; eauto.
  - rewrite set_absent by assumption. unfold ODict.keys.
    now rewrite map_app.
Qed.

Lemma wf_set d k v : ODict.wf d -> ODict.wf (ODict.set k v d).
Proof.
  unfold ODict.wf. intros W. rewrite keys_set.
  destruct (ODict.get k d) eqn:G; [assumption|].
  apply get_none_not_in in G.
  apply NoDup_app; [assumption | repeat constructor; simpl; tauto |].
  intros x I [<-|[]]. contradiction.
Qed.

Lemma wf_nil : ODict.wf (@nil (K * V)).
Proof. constructor. Qed.

(** Every binding of [set k v d] is [(k, v)] or a binding of [d]. *)
Lemma in_set d k v k' v' :
  In (k', v') (ODict.set k v d) -> (k' = k /\ v' = v) \/ In (k', v') d.
Proof.
  induction d as [|[k0 v0] d IH]; simpl.
  - intros [[= <- <-]|[]]. now left.
  - destruct (eq_dec k k0) as [E|E]; simpl.
    + intros [[= <- <-]|I]; [left; split; congruence | right; now right].
    + intros [I|I]; [right; now left|].
      destruct (IH I) as [?|?]; [now left | right; now right].
Qed.
End Facts.

Lemma nodupb_NoDup {K} `{EqDec K} (l : list K) :
nodupb l = true <-> NoDup l.
Proof.
induction l as [|x l IH]; simpl.
- split; [constructor | reflexivity].
- rewrite andb_true_iff, negb_true_iff, IH. split.
  + intros [E W]. constructor; [|assumption].
    intros I. assert (X : existsb (fun y => if eq_dec x y then true else false) l = true).
    { apply existsb_exists. exists x. split; [assumption|].
      destruct (eq_dec x x); congruence. }
    congruence.
  + intros W. inversion W as [|? ? N W']; subst. split; [|assumption].
    destruct (existsb _ l) eqn:E; [|reflexivity].
    apply existsb_exists in E. destruct E as [y [I E]].
    destruct (eq_dec x y); [subst; contradiction | discriminate].
Qed.
End ODictFacts.
Import ODictFacts.

(** ** Tuples and strings *)

Lemma as_strs_strings (ss : list string) : as_strs (map VStr ss) = Some ss.
Proof.
  induction ss as [|s ss IH]; simpl; [reflexivity|]. now rewrite IH.
Qed.

Lemma join_strings (ss : list string) :
  join (map VStr ss) = Ok (String.concat "" ss).
Proof. unfold join. now rewrite as_strs_strings. Qed.

Lemma as_strs_some (items : list pyval) (ss : list string) :
  as_strs items = Some ss -> items = map VStr ss.
Proof.
  revert ss. induction items as [|x items IH]; simpl; intros ss E.
  - now injection E as <-.
  - destruct x; try discriminate.
    destruct (as_strs items) as [ss'|]; [|discriminate].
    injection E as <-. simpl. f_equal. now apply IH.
Qed.

Lemma join_not_string (items : list pyval) :
  (exists tok, In tok items /\ is_str tok = false) ->
  join items = Raise TypeError.
Proof.
  intros [tok [I S]]. unfold join.
  destruct (as_strs items) as [ss|] eqn:E; [|reflexivity].
  apply as_strs_some in E. subst items.
  apply in_map_iff in I. destruct I as [s [<- _]]. discriminate.
Qed.

Lemma but_last_snoc (l : list pyval) (x : pyval) : but_last (l ++ [x]) = l.
Proof. apply removelast_last. Qed.

Lemma last_item_snoc (l : list pyval) (x : pyval) :
  last_item (l ++ [x]) = Ok x.
Proof.
  unfold last_item. destruct l as [|y l]; simpl; [reflexivity|].
  f_equal. apply last_last.
Qed.

(** A tuple that is not empty splits into [t[:-1]] and [t[-1]]. *)
Lemma tuple_split (t : list pyval) :
  t <> [] -> exists x, t = but_last t ++ [x] /\ last_item t = Ok x.
Proof.
  intros N. destruct (exists_last N) as [l [x E]]. exists x. subst t.
  now rewrite but_last_snoc, last_item_snoc.
Qed.

(** ** Reading a graph after an assignment *)

Lemma lookup_set (g : ODict.odict string (ODict.odict pyval Z))
      (k k' : string) (d : ODict.odict pyval Z) (s : pyval) :
  lookup (ODict.set k d g) k' s =
  if eq_dec k' k then ODict.get s d else lookup g k' s.
Proof.
  unfold lookup. destruct (eq_dec k' k) as [E|E].
  - subst k'. now rewrite get_set_same.
  - rewrite get_set_other by congruence. reflexivity.
Qed.

(** What [add_ngram] does to the instance on a well-formed call. *)
Lemma add_ngram_ok (self : Markov) (source : list pyval) (key : string)
      (destination : pyval) :
  Z.of_nat (length (source ++ [destination])) = n self ->
  join source = Ok key ->
  add_ngram (source ++ [destination]) self =
  (Ok tt,
   mkMarkov (n self)
     (ODict.set key
        (match ODict.get key (graph self) with
         | None => [(destination, 1)]
         | Some suffixes =>
             ODict.set destination
               (match ODict.get destination suffixes with
                | None => 1
                | Some c => c + 1
                end) suffixes
         end) (graph self))).
Proof.
  intros L J. unfold add_ngram. run_method.
  apply Z.eqb_eq in L. rewrite L. simpl.
  rewrite but_last_snoc, J, last_item_snoc.
  destruct (ODict.get key (graph self)) as [suffixes|]; [|reflexivity].
  destruct (ODict.get destination suffixes); reflexivity.
Qed.

Lemma add_ngram_bad_length (self : Markov) (ngram : list pyval) :
  Z.of_nat (length ngram) <> n self ->
  add_ngram ngram self = (Raise ValueError, self).
Proof.
  intros L. unfold add_ngram. run_method.
  apply Z.eqb_neq in L. now rewrite L.
Qed.

(** A call of [add_ngram] that raises leaves the instance as it was. *)
Lemma add_ngram_raise_unchanged (self self' : Markov) (ngram : list pyval)
      (e : exn) :
  add_ngram ngram self = (Raise e, self') -> self' = self.
Proof.
  unfold add_ngram. run_method.
  destruct (Z.of_nat (length ngram) =? n self); simpl; [|congruence].
  destruct (join (but_last ngram)); [|congruence].
  destruct (last_item ngram); [|congruence].
  destruct (ODict.get a (graph self)) as [suffixes|]; [|discriminate].
  destruct (ODict.get a0 suffixes); discriminate.
Qed.

(** ** The class invariant *)

Lemma in_values {K V} (d : list (K * V)) (v : V) :
  In v (ODict.values d) <-> exists k, In (k, v) d.
Proof.
  unfold ODict.values. rewrite in_map_iff. split.
  - intros [[k v'] [E I]]. simpl in E. subst v'. now exists k.
  - intros [k I]. now exists (k, v).
Qed.

Lemma suffixes_ok_iff (d : ODict.odict pyval Z) :
  suffixes_ok d = true <-> SuffixesOK d.
Proof.
  unfold suffixes_ok, SuffixesOK, ODict.wf.
  rewrite andb_true_iff, nodupb_NoDup, forallb_forall.
  split; intros [W P]; split; try assumption.
  - intros s c I. apply Z.ltb_lt. apply P. apply in_values. now exists s.
  - intros c I. apply in_values in I. destruct I as [s I].
    apply Z.ltb_lt. eauto.
Qed.

Lemma graph_ok_iff (g : ODict.odict string (ODict.odict pyval Z)) :
  graph_ok g = true <-> GraphOK g.
Proof.
  unfold graph_ok, GraphOK, ODict.wf.
  rewrite andb_true_iff, nodupb_NoDup, forallb_forall.
  split; intros [W P]; split; try assumption.
  - intros k d I. apply suffixes_ok_iff. apply P. apply in_values.
    now exists k.
  - intros d I. apply in_values in I. destruct I as [k I].
    apply suffixes_ok_iff. eauto.
Qed.

Lemma valid_iff (self : Markov) : valid self = true <-> Valid self.
Proof.
  unfold valid, Valid. now rewrite andb_true_iff, Z.leb_le, graph_ok_iff.
Qed.

Lemma SuffixesOK_set (d : ODict.odict pyval Z) (s : pyval) (c : Z) :
  SuffixesOK d -> 0 < c -> SuffixesOK (ODict.set s c d).
Proof.
  intros [W P] C. split; [now apply wf_set|].
  intros s' c' I. apply in_set in I. destruct I as [[_ ->]|I]; eauto.
Qed.

Lemma SuffixesOK_single (s : pyval) (c : Z) : 0 < c -> SuffixesOK [(s, c)].
Proof. intros C. apply (SuffixesOK_set [] s c); [|assumption].
  split; [apply wf_nil | intros ? ? []]. Qed.

Lemma GraphOK_set (g : ODict.odict string (ODict.odict pyval Z))
      (k : string) (d : ODict.odict pyval Z) :
  GraphOK g -> SuffixesOK d -> GraphOK (ODict.set k d g).
Proof.
  intros [W P] D. split; [now apply wf_set|].
  intros k' d' I. apply in_set in I. destruct I as [[_ ->]|I]; eauto.
Qed.

Lemma GraphOK_get (g : ODict.odict string (ODict.odict pyval Z))
      (k : string) (d : ODict.odict pyval Z) :
  GraphOK g -> ODict.get k g = Some d -> SuffixesOK d.
Proof. intros [_ P] G. apply get_some_in in G. eauto. Qed.

Lemma SuffixesOK_get (d : ODict.odict pyval Z) (s : pyval) (c : Z) :
  SuffixesOK d -> ODict.get s d = Some c -> 0 < c.
Proof. intros [_ P] G. apply get_some_in in G. eauto. Qed.

Lemma init_Valid (arg : pyval) (self : Markov) :
  __init__ arg = Ok self -> Valid self.
Proof.
  unfold __init__. destruct arg as [|z|s]; try discriminate.
  destruct (z <? 2) eqn:E; [discriminate|]. intros [= <-].
  apply Z.ltb_ge in E. split; [assumption|].
  split; [apply wf_nil | intros ? ? []].
Qed.

Lemma add_ngram_Valid (self : Markov) (ngram : list pyval) :
  Valid self -> Valid (exec (add_ngram ngram) self).
Proof.
  intros [O G]. unfold exec, add_ngram. run_method.
  destruct (Z.of_nat (length ngram) =? n self); simpl; [|now split].
  destruct (join (but_last ngram)) as [source|]; [|now split].
  destruct (last_item ngram) as [destination|]; [|now split].
  destruct (ODict.get source (graph self)) as [suffixes|] eqn:S; simpl.
  - pose proof (GraphOK_get _ _ _ G S) as D.
    destruct (ODict.get destination suffixes) as [c|] eqn:C; simpl;
      (split; [assumption|]); apply GraphOK_set; try assumption;
      apply SuffixesOK_set; try assumption; try lia.
    pose proof (SuffixesOK_get _ _ _ D C). lia.
  - split; [assumption|]. apply GraphOK_set; [assumption|].
    apply SuffixesOK_single. lia.
Qed.

Lemma update_suffixes_OK (suffixes mine : ODict.odict pyval Z) :
  SuffixesOK mine -> (forall s c, In (s, c) suffixes -> 0 < c) ->
  SuffixesOK (update_suffixes mine suffixes).
Proof.
  unfold update_suffixes. revert mine.
  induction suffixes as [|[s c] rest IH]; intros mine Mi P; simpl.
  - assumption.
  - assert (0 < c) as C by (apply (P s); now left).
    apply IH; [|intros; eapply P; right; eauto].
    destruct (ODict.get s mine) as [c0|] eqn:G;
      apply SuffixesOK_set; try assumption.
    pose proof (SuffixesOK_get _ _ _ Mi G). lia.
Qed.

Lemma update_graph_OK (other g : ODict.odict string (ODict.odict pyval Z)) :
  GraphOK g -> (forall k d, In (k, d) other -> SuffixesOK d) ->
  GraphOK (update_graph g other).
Proof.
  unfold update_graph. revert g.
  induction other as [|[k d] rest IH]; intros g G P; simpl.
  - assumption.
  - assert (SuffixesOK d) as D by (apply (P k); now left).
    apply IH; [|intros; eapply P; right; eauto].
    destruct (ODict.get k g) as [mine|] eqn:E;
      apply GraphOK_set; try assumption.
    apply update_suffixes_OK; [eapply GraphOK_get; eauto | apply D].
Qed.

Lemma update_Valid (self other : Markov) :
  Valid self -> Valid other -> Valid (exec (update other) self).
Proof.
  intros [O G] [O' [_ G']]. unfold exec, update. run_method.
  destruct (n self =? n other); simpl; [|now split].
  split; [assumption|]. now apply update_graph_OK.
Qed.

Lemma reachable_Valid (self : Markov) : reachable self -> Valid self.
Proof.
  induction 1.
  - eapply init_Valid; eauto.
  - now apply add_ngram_Valid.
  - now apply update_Valid.
Qed.

(** ** Merging, entry by entry *)

Lemma update_suffixes_get (suffixes mine : ODict.odict pyval Z) (s : pyval) :
  ODict.wf suffixes ->
  ODict.get s (update_suffixes mine suffixes) =
  opt_add (ODict.get s mine) (ODict.get s suffixes).
Proof.
  unfold update_suffixes, ODict.wf. revert mine.
  induction suffixes as [|[s0 c0] rest IH]; intros mine W; simpl.
  - now destruct (ODict.get s mine).
  - inversion W as [|? ? N W']; subst. rewrite IH by assumption.
    destruct (eq_dec s s0) as [E|E].
    + subst s0. apply get_none_not_in in N. rewrite N.
      destruct (ODict.get s mine) as [c|]; now rewrite get_set_same.
    + destruct (ODict.get s0 mine) as [c|];
        rewrite get_set_other by congruence; reflexivity.
Qed.

Lemma update_graph_get (other g : ODict.odict string (ODict.odict pyval Z))
      (k : string) :
  ODict.wf other ->
  ODict.get k (update_graph g other) =
  match ODict.get k g, ODict.get k other with
  | None, None => None
  | Some d, None => Some d
  | None, Some d' => Some d'
  | Some d, Some d' => Some (update_suffixes d d')
  end.
Proof.
  unfold update_graph, ODict.wf. revert g.
  induction other as [|[k0 d0] rest IH]; intros g W; simpl.
  - now destruct (ODict.get k g).
  - inversion W as [|? ? N W']; subst. rewrite IH by assumption.
    destruct (eq_dec k k0) as [E|E].
    + subst k0. apply get_none_not_in in N. rewrite N.
      destruct (ODict.get k g) as [d|]; now rewrite get_set_same.
    + destruct (ODict.get k0 g) as [d|];
        rewrite get_set_other by congruence; reflexivity.
Qed.

Lemma update_graph_lookup (other g : ODict.odict string (ODict.odict pyval Z))
      (k : string) (s : pyval) :
  GraphOK other ->
  lookup (update_graph g other) k s =
  opt_add (lookup g k s) (lookup other k s).
Proof.
  intros [W P]. unfold lookup. rewrite update_graph_get by assumption.
  destruct (ODict.get k g) as [d|], (ODict.get k other) as [d'|] eqn:E.
  - apply update_suffixes_get. apply get_some_in in E.
    now destruct (P _ _ E).
  - now destruct (ODict.get s d).
  - now destruct (ODict.get s d').
  - reflexivity.
Qed.

Lemma count_opt_add (a b : option Z) :
  match opt_add a b with Some c => c | None => 0 end =
  match a with Some c => c | None => 0 end +
  match b with Some c => c | None => 0 end.
Proof. destruct a, b; simpl; lia. Qed.

Lemma update_ok (self other : Markov) :
  n self = n other ->
  update other self =
  (Ok tt, mkMarkov (n self) (update_graph (graph self) (graph other))).
Proof.
  intros E. unfold update. run_method.
  apply Z.eqb_eq in E. now rewrite E.
Qed.

Lemma update_bad_order (self other : Markov) :
  n self <> n other -> update other self = (Raise ValueError, self).
Proof.
  intros E. unfold update. run_method.
  apply Z.eqb_neq in E. now rewrite E.
Qed.

(** ** Growth *)

Lemma grows_refl (g : ODict.odict string (ODict.odict pyval Z)) : grows g g.
Proof. intros k s c L. exists c. split; [assumption | lia]. Qed.

Lemma add_ngram_grows (self : Markov) (ngram : list pyval) :
  grows (graph self) (graph (exec (add_ngram ngram) self)).
Proof.
  unfold exec, add_ngram. run_method.
  destruct (Z.of_nat (length ngram) =? n self); simpl;
    [|apply grows_refl].
  destruct (join (but_last ngram)) as [source|]; [|apply grows_refl].
  destruct (last_item ngram) as [destination|]; [|apply grows_refl].
  intros k s c L.
  destruct (ODict.get source (graph self)) as [suffixes|] eqn:S; simpl.
  - destruct (ODict.get destination suffixes) as [c0|] eqn:C; simpl;
      rewrite lookup_set; (destruct (eq_dec k source) as [E|E];
        [subst k | exists c; split; [assumption | lia]]);
      unfold lookup in L; rewrite S in L;
      (destruct (eq_dec destination s) as [E'|E'];
        [subst s; rewrite get_set_same
        | rewrite get_set_other by assumption; exists c; split;
          [assumption | lia]]).
    + exists (c0 + 1). split; [reflexivity|]. assert (c = c0) by congruence. lia.
    + congruence.
  - rewrite lookup_set. destruct (eq_dec k source) as [E|E].
    + subst k. unfold lookup in L. now rewrite S in L.
    + exists c. split; [assumption | lia].
Qed.

Lemma update_grows (self other : Markov) :
  Valid other -> grows (graph self) (graph (exec (update other) self)).
Proof.
  intros [_ G]. unfold exec, update. run_method.
  destruct (n self =? n other); simpl; [|apply grows_refl].
  intros k s c L. rewrite update_graph_lookup by assumption. rewrite L.
  destruct (lookup (graph other) k s) as [b|] eqn:B; simpl.
  - exists (c + b). split; [reflexivity|].
    unfold lookup in B.
    destruct (ODict.get k (graph other)) as [d|] eqn:D; [|discriminate].
    pose proof (SuffixesOK_get _ _ _ (GraphOK_get _ _ _ G D) B). lia.
  - exists c. split; [reflexivity | lia].
Qed.

(** ** The probability view *)

Lemma fold_left_add_shift (l : list Z) (acc : Z) :
  fold_left Z.add l acc = acc + fold_left Z.add l 0.
Proof.
  revert acc. induction l as [|x l IH]; intros acc; simpl; [lia|].
  rewrite (IH (acc + x)), (IH x). lia.
Qed.

Lemma sum_values_cons (s : pyval) (c : Z) (d : ODict.odict pyval Z) :
  sum_values ((s, c) :: d) = c + sum_values d.
Proof. unfold sum_values. simpl. apply fold_left_add_shift. Qed.

Lemma sum_values_nonneg (d : ODict.odict pyval Z) :
  (forall s c, In (s, c) d -> 0 < c) -> 0 <= sum_values d.
Proof.
  induction d as [|[s c] d IH]; intros P.
  - unfold sum_values. simpl. lia.
  - rewrite sum_values_cons.
    assert (0 < c) by (apply (P s); now left).
    assert (0 <= sum_values d) by (apply IH; intros; eapply P; right; eauto).
    lia.
Qed.

Lemma sum_values_pos (d : ODict.odict pyval Z) :
  SuffixesOK d -> d <> [] -> 0 < sum_values d.
Proof.
  intros [_ P] N. destruct d as [|[s c] d]; [congruence|].
  rewrite sum_values_cons.
  assert (0 < c) by (apply (P s); now left).
  assert (0 <= sum_values d)
    by (apply sum_values_nonneg; intros; eapply P; right; eauto).
  lia.
Qed.

Section View.
Context {F : PyFloat}.

Lemma fill_mapping_appends (total : Z) (items : list (pyval * Z))
      (mapping : ODict.odict pyval pyfloat) :
  total <> 0 ->
  ODict.wf items ->
  (forall s, In s (ODict.keys items) -> ~ In s (ODict.keys mapping)) ->
  fill_mapping total items mapping =
  Ok (mapping ++
      map (fun item : pyval * Z => (fst item, truediv (snd item) total))
          items).
Proof.
  intros T. apply Z.eqb_neq in T. unfold ODict.wf. revert mapping.
  induction items as [|[s w] rest IH]; intros mapping W D; simpl.
  - now rewrite app_nil_r.
  - rewrite T. inversion W as [|? ? N W']; subst.
    rewrite set_absent
      by (apply get_none_not_in; apply D; now left).
    rewrite IH; [now rewrite <- app_assoc | assumption |].
    intros s' I. unfold ODict.keys. rewrite map_app, in_app_iff.
    intros [A|[<-|[]]]; [|contradiction].
    apply (D s'); [now right | assumption].
Qed.

(** The mapping [fill_mapping] builds has one binding per key. *)
Lemma fill_mapping_wf (total : Z) (items : list (pyval * Z))
      (mapping result : ODict.odict pyval pyfloat) :
  ODict.wf mapping ->
  fill_mapping total items mapping = Ok result -> ODict.wf result.
Proof.
  revert mapping. induction items as [|[s w] rest IH];
    intros mapping W; simpl.
  - now intros [= <-].
  - destruct (total =? 0); [discriminate|].
    apply IH. now apply wf_set.
Qed.

Lemma get_distribution (suffixes : ODict.odict pyval Z) (suffix : pyval) :
  ODict.get suffix (distribution suffixes) =
  option_map (fun c => truediv c (sum_values suffixes))
             (ODict.get suffix suffixes).
Proof.
  unfold distribution. generalize (sum_values suffixes) as total.
  intros total. induction suffixes as [|[s c] d IH]; simpl;
    [reflexivity|].
  destruct (eq_dec suffix s); [reflexivity | assumption].
Qed.

Lemma keys_distribution (suffixes : ODict.odict pyval Z) :
  ODict.keys (distribution suffixes) = ODict.keys suffixes.
Proof.
  unfold distribution, ODict.keys. rewrite map_map. reflexivity.
Qed.

(** Reading the graph does not touch the instance. *)
Lemma get_suffixes_state (prefix : list pyval) (self : Markov) :
  snd (get_suffixes prefix self) = self.
Proof.
  unfold get_suffixes. run_method.
  destruct (Z.of_nat (length prefix) =? n self - 1); simpl;
    [|reflexivity].
  destruct (join prefix) as [key|]; [|reflexivity].
  destruct (ODict.get key (graph self)); reflexivity.
Qed.

Lemma get_suffixes_unseen (prefix : list pyval) (key : string)
      (self : Markov) :
  Z.of_nat (length prefix) = n self - 1 ->
  join prefix = Ok key ->
  ODict.get key (graph self) = None ->
  get_suffixes prefix self = (Ok [], self).
Proof.
  intros L J G. unfold get_suffixes. run_method.
  apply Z.eqb_eq in L. rewrite L. simpl. now rewrite J, G.
Qed.

Lemma get_suffixes_seen (prefix : list pyval) (key : string)
      (suffixes : ODict.odict pyval Z) (self : Markov) :
  Z.of_nat (length prefix) = n self - 1 ->
  join prefix = Ok key ->
  ODict.get key (graph self) = Some suffixes ->
  SuffixesOK suffixes ->
  get_suffixes prefix self = (Ok (distribution suffixes), self).
Proof.
  intros L J G S. unfold get_suffixes. run_method.
  apply Z.eqb_eq in L. rewrite L. simpl. rewrite J, G.
  destruct suffixes as [|item rest] eqn:E; [reflexivity|].
  rewrite <- E in *. rewrite fill_mapping_appends.
  - reflexivity.
  - assert (0 < sum_values suffixes)
      by (apply sum_values_pos; [assumption | congruence]).
    lia.
  - apply S.
  - intros s _ [].
Qed.

Lemma get_suffixes_bad_length (prefix : list pyval) (self : Markov) :
  Z.of_nat (length prefix) <> n self - 1 ->
  get_suffixes prefix self = (Raise ValueError, self).
Proof.
  intros L. unfold get_suffixes. run_method.
  apply Z.eqb_neq in L. now rewrite L.
Qed.

Lemma get_suffixes_not_string (prefix : list pyval) (self : Markov) :
  Z.of_nat (length prefix) = n self - 1 ->
  (exists tok, In tok prefix /\ is_str tok = false) ->
  get_suffixes prefix self = (Raise TypeError, self).
Proof.
  intros L N. unfold get_suffixes. run_method.
  apply Z.eqb_eq in L. rewrite L. simpl.
  now rewrite (join_not_string _ N).
Qed.

(** Whatever [get_suffixes] returns has one binding per key. *)
Lemma get_suffixes_wf (prefix : list pyval) (self self' : Markov)
      (mapping : ODict.odict pyval pyfloat) :
  get_suffixes prefix self = (Ok mapping, self') -> ODict.wf mapping.
Proof.
  unfold get_suffixes. run_method.
  destruct (Z.of_nat (length prefix) =? n self - 1); simpl;
    [|discriminate].
  destruct (join prefix) as [key|]; [|discriminate].
  destruct (ODict.get key (graph self)) as [suffixes|].
  - destruct (fill_mapping (sum_values suffixes) suffixes ODict.empty)
      as [m|] eqn:E; [|discriminate].
    intros [= <- _]. eapply fill_mapping_wf; [|exact E]. apply wf_nil.
  - intros [= <- _]. apply wf_nil.
Qed.
End View.

(** ** Ingestion, entry by entry *)

Lemma add_ngram_entries (self : Markov) (source : list pyval) (key : string)
      (destination : pyval) :
  Z.of_nat (length (source ++ [destination])) = n self ->
  join source = Ok key ->
  exists g',
    add_ngram (source ++ [destination]) self = (Ok tt, mkMarkov (n self) g')
    /\ lookup g' key destination
       = Some (count (graph self) key destination + 1)
    /\ (forall k s, k <> key \/ s <> destination ->
                    lookup g' k s = lookup (graph self) k s)
    /\ (forall k, k <> key -> ODict.get k g' = ODict.get k (graph self)).
Proof.
  intros L J. eexists. split; [apply add_ngram_ok; eassumption|].
  split; [|split].
  - rewrite lookup_set. destruct (eq_dec key key); [|congruence].
    unfold count, lookup.
    destruct (ODict.get key (graph self)) as [suffixes|]; simpl.
    + rewrite get_set_same.
      destruct (ODict.get destination suffixes); reflexivity.
    + destruct (eq_dec destination destination); congruence.
  - intros k s N. rewrite lookup_set.
    destruct (eq_dec k key) as [E|E]; [|reflexivity].
    subst k. destruct N as [N|N]; [congruence|].
    unfold lookup.
    destruct (ODict.get key (graph self)) as [suffixes|]; simpl.
    + now rewrite get_set_other by congruence.
    + destruct (eq_dec s destination); congruence.
  - intros k N. now rewrite get_set_other by congruence.
Qed.

(** * The properties of the model *)

(** C1. On a prefix of [n - 1] string tokens, [get_suffixes] returns the
    empty mapping when the concatenated key is not in the graph, and
    otherwise the mapping that gives every recorded suffix, in the order of
    first observation, its count divided by the sum of the counts recorded
    under that key.  With [n = 2], after [("the","cat")] once and
    [("the","dog")] twice, the view of [("the",)] is
    [{"cat": 1/3, "dog": 2/3}]. *)
Theorem get_suffixes_distribution {F : PyFloat}
        (self : Markov) (prefix : list string) :
  valid self = true ->
  Z.of_nat (length prefix) = n self - 1 ->
  (ODict.get (String.concat "" prefix) (graph self) = None ->
   get_suffixes (map VStr prefix) self = (Ok ODict.empty, self))
  /\ (forall suffixes,
         ODict.get (String.concat "" prefix) (graph self) = Some suffixes ->
         get_suffixes (map VStr prefix) self
         = (Ok (distribution suffixes), self)
         /\ ODict.keys (distribution suffixes) = ODict.keys suffixes
         /\ forall suffix,
             ODict.get suffix (distribution suffixes)
             = option_map (fun c => truediv c (sum_values suffixes))
                          (ODict.get suffix suffixes))
  /\ (__init__ (VInt 2) = Ok (mkMarkov 2 ODict.empty)
      /\ get_suffixes [VStr "the"] the_cat_dog
         = (Ok [(VStr "cat", truediv 1 3); (VStr "dog", truediv 2 3)],
            the_cat_dog)).
Proof.
  intros V L. apply valid_iff in V. destruct V as [_ G].
  split; [|split].
  - intros U. eapply get_suffixes_unseen; eauto using join_strings.
    now rewrite length_map.
  - intros suffixes S. split; [|split].
    + eapply get_suffixes_seen; eauto using join_strings.
      * now rewrite length_map.
      * eapply GraphOK_get; eauto.
    + apply keys_distribution.
    + apply get_distribution.
  - split; reflexivity.
Qed.

Lemma get_suffixes_distribution_witness :
  get_suffixes (F := Py64) (map VStr ["the"%string]) the_cat_dog
  = (Ok (distribution [(VStr "cat", 1); (VStr "dog", 2)]), the_cat_dog).
Proof.
  destruct (get_suffixes_distribution (F := Py64) the_cat_dog ["the"%string]
              eq_refl eq_refl) as [_ [H _]].
  exact (proj1 (H [(VStr "cat", 1); (VStr "dog", 2)] eq_refl)).
Defined.

(** C2. [add_ngram] raises [ValueError] on a sequence whose length is not
    [n], leaving the instance as it was.  On [n] tokens, the first [n - 1]
    of them strings, it returns, and the graph it leaves holds, for the key
    made by concatenating the first [n - 1] tokens and for the last token,
    the former count plus one (1 if the key or the token was not recorded);
    every other entry is as before, and [n] is unchanged. *)
Theorem add_ngram_increments (self : Markov) (ngram : list pyval) :
  (Z.of_nat (length ngram) <> n self ->
   add_ngram ngram self = (Raise ValueError, self))
  /\ (forall (prefix : list string) (destination : pyval),
         ngram = map VStr prefix ++ [destination] ->
         Z.of_nat (length ngram) = n self ->
         exists g',
           add_ngram ngram self = (Ok tt, mkMarkov (n self) g')
           /\ lookup g' (String.concat "" prefix) destination
              = Some (count (graph self) (String.concat "" prefix)
                            destination + 1)
           /\ (lookup (graph self) (String.concat "" prefix) destination
               = None ->
               lookup g' (String.concat "" prefix) destination = Some 1)
           /\ (forall k s,
                  k <> String.concat "" prefix \/ s <> destination ->
                  lookup g' k s = lookup (graph self) k s)
           /\ (forall k,
                  k <> String.concat "" prefix ->
                  ODict.get k g' = ODict.get k (graph self))).
Proof.
  split; [apply add_ngram_bad_length|].
  intros prefix destination -> L.
  destruct (add_ngram_entries self (map VStr prefix)
              (String.concat "" prefix) destination L (join_strings prefix))
    as [g' [R [A [B C]]]].
  exists g'. repeat split; try assumption.
  intros U. rewrite A. unfold count. now rewrite U.
Qed.

Lemma add_ngram_increments_witness :
  add_ngram [VStr "the"] (mkMarkov 2 ODict.empty)
  = (Raise ValueError, mkMarkov 2 ODict.empty)
  /\ exists g',
      add_ngram [VStr "the"; VStr "dog"] the_cat_dog
      = (Ok tt, mkMarkov 2 g')
      /\ lookup g' "the" (VStr "dog") = Some 3.
Proof.
  split.
  - apply (proj1 (add_ngram_increments (mkMarkov 2 ODict.empty)
                                        [VStr "the"])).
    simpl. lia.
  - destruct (proj2 (add_ngram_increments the_cat_dog
                                           [VStr "the"; VStr "dog"])
                    ["the"%string] (VStr "dog") eq_refl eq_refl)
      as [g' [R [A _]]].
    exists g'. split; [exact R | exact A].
Defined.

(** C3. [update] raises [ValueError] when the two orders differ and leaves
    [self] as it was.  When they are equal it returns, and every pair
    (prefix key, suffix) then has in [self] the sum of the counts [self]
    and the other model had for it, an absent entry counting as 0; a second
    [update] with the same model adds its counts once more, so the result
    differs from the first wherever the other model has a count. *)
Theorem update_adds_counts (self other : Markov) :
  (n self <> n other -> update other self = (Raise ValueError, self))
  /\ (n self = n other ->
      valid other = true ->
      exists g1 g2,
        update other self = (Ok tt, mkMarkov (n self) g1)
        /\ (forall k s,
               lookup g1 k s
               = opt_add (lookup (graph self) k s) (lookup (graph other) k s))
        /\ (forall k s,
               count g1 k s
               = count (graph self) k s + count (graph other) k s)
        /\ update other (mkMarkov (n self) g1)
           = (Ok tt, mkMarkov (n self) g2)
        /\ (forall k s,
               count g2 k s
               = count (graph self) k s + 2 * count (graph other) k s)
        /\ (forall k s,
               count (graph other) k s <> 0 -> count g2 k s <> count g1 k s)).
Proof.
  split; [apply update_bad_order|].
  intros E V. apply valid_iff in V. destruct V as [_ G].
  exists (update_graph (graph self) (graph other)).
  exists (update_graph (update_graph (graph self) (graph other))
                       (graph other)).
  assert (C1 : forall g k s,
             count (update_graph g (graph other)) k s
             = count g k s + count (graph other) k s).
  { intros g k s. unfold count. rewrite update_graph_lookup by assumption.
    apply count_opt_add. }
  split; [now apply update_ok|].
  split; [intros; now apply update_graph_lookup|].
  split; [intros; apply C1|].
  split; [now apply (update_ok (mkMarkov (n self) _) other)|].
  split; intros k s.
  - rewrite !C1. lia.
  - rewrite !C1. lia.
Qed.

Lemma update_adds_counts_witness :
  update (mkMarkov 3 ODict.empty) the_cat_dog = (Raise ValueError, the_cat_dog)
  /\ exists g1 g2,
      update the_cat_dog the_cat_dog = (Ok tt, mkMarkov 2 g1)
      /\ count g1 "the" (VStr "dog") = 4
      /\ update the_cat_dog (mkMarkov 2 g1) = (Ok tt, mkMarkov 2 g2)
      /\ count g2 "the" (VStr "dog") = 6.
Proof.
  split.
  - apply (proj1 (update_adds_counts the_cat_dog (mkMarkov 3 ODict.empty))).
    simpl. lia.
  - destruct (proj2 (update_adds_counts the_cat_dog the_cat_dog)
                    eq_refl eq_refl)
      as [g1 [g2 [R1 [_ [A [R2 [B _]]]]]]].
    exists g1, g2. split; [exact R1|]. split; [exact (A _ _)|].
    split; [exact R2 | exact (B _ _)].
Defined.

(** C4. Prefixes are keyed by their concatenation.  Two sequences of
    string tokens of the same length whose concatenations are equal are
    the same prefix to the model: [add_ngram] with either, followed by the
    same last token, does the same to the instance, and [get_suffixes]
    returns the same for both; so a token ingested after one is, with its
    count, in the view of the other.  [("a","bc")] and [("ab","c")] are
    such a pair. *)
Theorem prefix_key_collision {F : PyFloat} (self : Markov)
        (p1 p2 : list string) (destination : pyval) :
  String.concat "" p1 = String.concat "" p2 ->
  length p1 = length p2 ->
  add_ngram (map VStr p1 ++ [destination]) self
  = add_ngram (map VStr p2 ++ [destination]) self
  /\ get_suffixes (map VStr p1) self = get_suffixes (map VStr p2) self
  /\ (valid self = true ->
      Z.of_nat (length p1) = n self - 1 ->
      exists self' suffixes,
        add_ngram (map VStr p1 ++ [destination]) self = (Ok tt, self')
        /\ ODict.get (String.concat "" p2) (graph self') = Some suffixes
        /\ ODict.get destination suffixes
           = Some (count (graph self) (String.concat "" p1) destination + 1)
        /\ get_suffixes (map VStr p2) self'
           = (Ok (distribution suffixes), self')
        /\ In destination (ODict.keys (distribution suffixes)))
  /\ (String.concat "" ["a"; "bc"] = String.concat "" ["ab"; "c"]
      /\ ["a"; "bc"] <> ["ab"; "c"])%string.
Proof.
  intros C L.
  assert (L' : length (map VStr p1 ++ [destination])
               = length (map VStr p2 ++ [destination]))
    by (rewrite !length_app, !length_map; congruence).
  split; [|split; [|split]].
  - destruct (Z.eq_dec (Z.of_nat (length (map VStr p1 ++ [destination])))
                       (n self)) as [E|E].
    + rewrite (add_ngram_ok self (map VStr p1) (String.concat "" p1)
                 destination E (join_strings p1)).
      rewrite L' in E.
      rewrite (add_ngram_ok self (map VStr p2) (String.concat "" p2)
                 destination E (join_strings p2)).
      now rewrite C.
    + rewrite (add_ngram_bad_length self _ E). rewrite L' in E.
      now rewrite (add_ngram_bad_length self _ E).
  - unfold get_suffixes. run_method.
    rewrite !length_map, !join_strings, L, C. reflexivity.
  - intros V N. rewrite <- C.
    assert (E : Z.of_nat (length (map VStr p1 ++ [destination])) = n self)
      by (rewrite length_app, length_map; simpl; lia).
    pose proof (add_ngram_Valid self (map VStr p1 ++ [destination])
                  (proj1 (valid_iff self) V)) as V'.
    destruct (add_ngram_entries self (map VStr p1) (String.concat "" p1)
                destination E (join_strings p1)) as [g' [R [A _]]].
    unfold exec in V'. rewrite R in V'. simpl in V'.
    destruct V' as [_ G'].
    unfold lookup in A.
    destruct (ODict.get (String.concat "" p1) g') as [suffixes|] eqn:S;
      [|discriminate].
    exists (mkMarkov (n self) g'), suffixes.
    split; [exact R|]. split; [exact S|]. split; [exact A|]. split.
    + eapply get_suffixes_seen; eauto using join_strings.
      * rewrite length_map. simpl. lia.
      * rewrite <- C. exact S.
      * eapply GraphOK_get; eauto.
    + rewrite keys_distribution. apply get_some_in in A.
      change destination with (fst (destination,
        count (graph self) (String.concat "" p1) destination + 1)).
      now apply in_map.
  - split; [reflexivity | discriminate].
Qed.

Lemma prefix_key_collision_witness :
  exists self' suffixes,
    add_ngram [VStr "a"; VStr "bc"; VStr "x"] (mkMarkov 3 ODict.empty)
    = (Ok tt, self')
    /\ get_suffixes (F := Py64) [VStr "ab"; VStr "c"] self'
       = (Ok (distribution suffixes), self')
    /\ In (VStr "x") (ODict.keys (distribution (F := Py64) suffixes)).
Proof.
  destruct (prefix_key_collision (F := Py64) (mkMarkov 3 ODict.empty)
              ["a"; "bc"]%string ["ab"; "c"]%string (VStr "x")
              eq_refl eq_refl)
    as [_ [_ [H _]]].
  destruct (H eq_refl eq_refl) as [self' [suffixes [R [_ [_ [G I]]]]]].
  exists self', suffixes. split; [exact R|]. split; [exact G | exact I].
Defined.

(** ** The n-gram view *)

Section NgramView.
Context {F : PyFloat}.

Lemma snoc_inj (prefix : list pyval) (s s' : pyval) :
  prefix ++ [s] = prefix ++ [s'] -> s = s'.
Proof. intros E. apply app_inv_head in E. congruence. Qed.

Lemma ngram_fold (prefix : list pyval)
      (mapping : ODict.odict pyval pyfloat)
      (acc : ODict.odict (list pyval) pyfloat) :
  ODict.wf mapping ->
  (forall s, In s (ODict.keys mapping) ->
             ~ In (prefix ++ [s]) (ODict.keys acc)) ->
  fold_left
    (fun ngram_mapping (item : pyval * pyfloat) =>
       let (suffix, probability) := item in
       ODict.set (prefix ++ [suffix]) probability ngram_mapping)
    mapping acc
  = acc ++ map (fun item : pyval * pyfloat =>
                  (prefix ++ [fst item], snd item)) mapping.
Proof.
  unfold ODict.wf. revert acc.
  induction mapping as [|[s p] rest IH]; intros acc W D; simpl.
  - now rewrite app_nil_r.
  - inversion W as [|? ? N W']; subst.
    rewrite set_absent
      by (apply get_none_not_in; apply D; now left).
    rewrite IH; [now rewrite <- app_assoc | assumption |].
    intros s' I. unfold ODict.keys. rewrite map_app, in_app_iff.
    intros [A|[E|[]]].
    + apply (D s'); [now right | assumption].
    + simpl in E. apply snoc_inj in E. subst s'. contradiction.
Qed.

Lemma ngram_get (prefix : list pyval)
      (mapping : ODict.odict pyval pyfloat) (s : pyval) :
  ODict.get (prefix ++ [s])
            (map (fun item : pyval * pyfloat =>
                    (prefix ++ [fst item], snd item)) mapping)
  = ODict.get s mapping.
Proof.
  induction mapping as [|[s0 p] rest IH]; simpl; [reflexivity|].
  destruct (eq_dec (prefix ++ [s]) (prefix ++ [s0])) as [E|E],
           (eq_dec s s0) as [E'|E']; try reflexivity.
  - apply snoc_inj in E. contradiction.
  - subst s0. contradiction.
  - assumption.
Qed.
End NgramView.

(** C7. Whenever [get_suffixes] returns a mapping for a prefix,
    [get_ngrams] returns one for it too: its keys are exactly the tuples
    [prefix + (s,)] for the keys [s] of the first, in the same order, and
    the probability under [prefix + (s,)] is the one under [s]. *)
Theorem get_ngrams_round_trip {F : PyFloat} (self self' : Markov)
        (prefix : list pyval) (mapping : ODict.odict pyval pyfloat) :
  get_suffixes prefix self = (Ok mapping, self') ->
  exists ngram_mapping,
    get_ngrams prefix self = (Ok ngram_mapping, self')
    /\ ODict.keys ngram_mapping
       = map (fun s => prefix ++ [s]) (ODict.keys mapping)
    /\ (forall key,
           In key (ODict.keys ngram_mapping) <->
           exists s, In s (ODict.keys mapping) /\ key = prefix ++ [s])
    /\ (forall s,
           ODict.get (prefix ++ [s]) ngram_mapping = ODict.get s mapping).
Proof.
  intros G. pose proof (get_suffixes_wf _ _ _ _ G) as W.
  exists (map (fun item : pyval * pyfloat =>
                 (prefix ++ [fst item], snd item)) mapping).
  assert (K : ODict.keys
                (map (fun item : pyval * pyfloat =>
                        (prefix ++ [fst item], snd item)) mapping)
              = map (fun s => prefix ++ [s]) (ODict.keys mapping)).
  { unfold ODict.keys. now rewrite !map_map. }
  split; [|split; [exact K | split]].
  - unfold get_ngrams, bind. rewrite G. unfold ret.
    rewrite ngram_fold; [reflexivity | assumption | intros s _ []].
  - intros key. rewrite K, in_map_iff. split.
    + intros [s [E I]]. exists s. split; [assumption | congruence].
    + intros [s [I E]]. exists s. split; [congruence | assumption].
  - intros s. apply ngram_get.
Qed.

Lemma get_ngrams_round_trip_witness :
  exists ngram_mapping,
    get_ngrams (F := Py64) [VStr "the"] the_cat_dog
    = (Ok ngram_mapping, the_cat_dog)
    /\ ODict.keys ngram_mapping
       = [[VStr "the"; VStr "cat"]; [VStr "the"; VStr "dog"]].
Proof.
  destruct (get_ngrams_round_trip (F := Py64) the_cat_dog the_cat_dog
              [VStr "the"]
              [(VStr "cat", truediv 1 3); (VStr "dog", truediv 2 3)]
              eq_refl)
    as [ngram_mapping [R [K _]]].
  exists ngram_mapping. split; [exact R | exact K].
Defined.

(** ** The sampler *)

Section Sampler.
Context {F : PyFloat}.

(** The loop returns a key of the mapping, or falls off its end. *)
Lemma scan_key_or_none (threshhold upto : pyfloat)
      (items : ODict.odict pyval pyfloat) :
  scan threshhold upto items = VNone
  \/ In (scan threshhold upto items) (ODict.keys items).
Proof.
  revert upto. induction items as [|[s p] rest IH]; intros upto; simpl.
  - now left.
  - destruct (fge (fadd upto p) threshhold).
    + right. now left.
    + destruct (IH (fadd upto p)) as [E|I]; [now left | right; now right].
Qed.

Lemma random_suffix_eq (threshhold : pyfloat) (prefix : list pyval)
      (self : Markov) :
  random_suffix threshhold prefix self
  = (match result (get_suffixes prefix) self with
     | Ok mapping => Ok (scan threshhold fzero mapping)
     | Raise e => Raise e
     end, self).
Proof.
  unfold random_suffix, bind, ret, result.
  pose proof (get_suffixes_state prefix self) as S.
  destruct (get_suffixes prefix self) as [[mapping|e] self']; simpl in *;
    now subst.
Qed.

Lemma random_suffix_state (threshhold : pyfloat) (prefix : list pyval)
      (self : Markov) :
  snd (random_suffix threshhold prefix self) = self.
Proof. now rewrite random_suffix_eq. Qed.

(** An unseen prefix of strings yields [None]. *)
Lemma random_suffix_unseen (threshhold : pyfloat) (window : list string)
      (self : Markov) :
  Z.of_nat (length window) = n self - 1 ->
  ODict.get (String.concat "" window) (graph self) = None ->
  random_suffix threshhold (map VStr window) self = (Ok VNone, self).
Proof.
  intros L U. rewrite random_suffix_eq. unfold result.
  rewrite (get_suffixes_unseen (map VStr window) (String.concat "" window));
    [reflexivity | now rewrite length_map | apply join_strings | assumption].
Qed.

(** A prefix holding something that is not a string is a [TypeError]. *)
Lemma random_suffix_not_string (threshhold : pyfloat)
      (prefix : list pyval) (self : Markov) :
  Z.of_nat (length prefix) = n self - 1 ->
  (exists tok, In tok prefix /\ is_str tok = false) ->
  random_suffix threshhold prefix self = (Raise TypeError, self).
Proof.
  intros L N. rewrite random_suffix_eq. unfold result.
  now rewrite get_suffixes_not_string.
Qed.
End Sampler.

(** C5, at an input where it fails.  In [Markov(2)] with seven suffixes
    recorded once each after ["a"], the seven probabilities [1/7] add up, in
    binary64, to less than [1 - 2^-53], a value [random.random()] can
    return.  With that threshold the loop of [random_suffix] passes every
    suffix and the call returns [None], which is not a key of the
    (non-empty) mapping [get_suffixes] returns. *)
Theorem random_suffix_rounding_gap :
  valid seven_suffixes = true
  /\ (PrimFloat.leb 0 0x1.fffffffffffffp-1 = true
      /\ PrimFloat.ltb 0x1.fffffffffffffp-1 1 = true)%float
  /\ (exists mapping,
         get_suffixes (F := Py64) [VStr "a"] seven_suffixes
         = (Ok mapping, seven_suffixes)
         /\ ODict.keys mapping
            = map VStr ["s1"; "s2"; "s3"; "s4"; "s5"; "s6"; "s7"]%string
         /\ ~ In VNone (ODict.keys mapping))
  /\ random_suffix (F := Py64) 0x1.fffffffffffffp-1%float [VStr "a"]
                   seven_suffixes
     = (Ok VNone, seven_suffixes).
Proof.
  split; [reflexivity|]. split; [split; reflexivity|]. split.
  - eexists. split; [vm_compute; reflexivity|]. split; [reflexivity|].
    simpl. intros H. repeat (destruct H as [H|H]; [discriminate|]).
    exact H.
  - vm_compute. reflexivity.
Qed.

(** ** The deque and the window *)

Lemma deque_append_full (maxlen : Z) (q : list pyval) (x : pyval) :
  Z.of_nat (length q) = maxlen -> deque_append maxlen q x = tl (q ++ [x]).
Proof.
  intros L. unfold deque_append.
  destruct (Z.of_nat (length q) <? maxlen) eqn:E; [|reflexivity].
  apply Z.ltb_lt in E. lia.
Qed.

Lemma deque_fill (maxlen : Z) (items q : list pyval) :
  Z.of_nat (length q + length items) <= maxlen ->
  fold_left (deque_append maxlen) items q = q ++ items.
Proof.
  revert q. induction items as [|x items IH]; intros q L; simpl.
  - now rewrite app_nil_r.
  - simpl in L. unfold deque_append at 2.
    destruct (Z.of_nat (length q) <? maxlen) eqn:E.
    + rewrite IH; [now rewrite <- app_assoc|].
      rewrite length_app. simpl. lia.
    + apply Z.ltb_ge in E. lia.
Qed.

Lemma deque_init_full (maxlen : Z) (items : list pyval) :
  Z.of_nat (length items) = maxlen -> deque_init maxlen items = items.
Proof.
  intros L. unfold deque_init. rewrite deque_fill; [reflexivity|].
  simpl. lia.
Qed.

Lemma length_tl_snoc (q : list pyval) (x : pyval) :
  length (tl (q ++ [x])) = length q.
Proof. destruct q; simpl; [reflexivity|]. rewrite length_app. simpl. lia. Qed.

Lemma skipn_succ (d : nat) (l : list pyval) :
  skipn (S d) l = tl (skipn d l).
Proof.
  revert l. induction d as [|d IH]; intros l.
  - now destruct l.
  - destruct l as [|x l]; [reflexivity|]. simpl. rewrite <- IH.
    reflexivity.
Qed.

Lemma lastn_whole (l : list pyval) : lastn (length l) l = l.
Proof. unfold lastn. now rewrite Nat.sub_diag. Qed.

(** Sliding the window keeps it the last [k] tokens produced. *)
Lemma lastn_slide (k : nat) (q produced : list pyval) (x : pyval) :
  length q = k -> q = lastn k produced ->
  tl (q ++ [x]) = lastn k (produced ++ [x]).
Proof.
  unfold lastn. intros L E.
  assert (K : (k <= length produced)%nat).
  { rewrite E in L. rewrite length_skipn in L. lia. }
  rewrite length_app. simpl.
  replace (length produced + 1 - k)%nat with (S (length produced - k))
    by lia.
  rewrite skipn_succ, skipn_app.
  replace (length produced - k - length produced)%nat with 0%nat by lia.
  simpl. now rewrite <- E.
Qed.

(** ** The walk *)

Section WalkFacts.
Context {F : PyFloat}.

Lemma walk_step_eq (maxlen : Z) (threshhold : pyfloat) (w : walk)
      (self : Markov) :
  walk_step maxlen threshhold w self
  = (match result (random_suffix threshhold (prefix_queue w)) self with
     | Ok suffix =>
         Ok (if eq_dec suffix (VStr "")
             then Return (sequence w ++ [suffix])
             else Continue
                    (mkWalk (deque_append maxlen (prefix_queue w) suffix)
                            (sequence w ++ [suffix])))
     | Raise e => Raise e
     end, self).
Proof.
  unfold walk_step, bind, result. rewrite random_suffix_eq.
  unfold result. simpl.
  destruct (fst (get_suffixes (prefix_queue w) self)) as [mapping|e];
    [|reflexivity].
  destruct (eq_dec (scan threshhold fzero mapping) (VStr "")); reflexivity.
Qed.

Lemma random_suffix_result (threshhold : pyfloat) (prefix : list pyval)
      (self : Markov) (r : outcome pyval) :
  result (random_suffix threshhold prefix) self = r <->
  random_suffix threshhold prefix self = (r, self).
Proof.
  unfold result. pose proof (random_suffix_state threshhold prefix self).
  destruct (random_suffix threshhold prefix self) as [r' self'].
  simpl in *. subst. split; congruence.
Qed.

Lemma window_ok_slide (k : nat) (w : walk) (x : pyval) :
  window_ok k w ->
  window_ok k (mkWalk (deque_append (Z.of_nat k) (prefix_queue w) x)
                      (sequence w ++ [x])).
Proof.
  intros [L E]. unfold window_ok. simpl.
  rewrite deque_append_full by congruence. split.
  - now rewrite length_tl_snoc.
  - now apply lastn_slide.
Qed.

(** If the loop returns, it has drawn suffixes for successive windows
    until the first [""]. *)
Lemma walk_loop_returned (k : nat) (rand : nat -> pyfloat) (self : Markov)
      (fuel i : nat) (w : walk) (out : list pyval) (self' : Markov) :
  window_ok k w ->
  walk_loop fuel (Z.of_nat k) rand i w self = (Ok (Some out), self') ->
  self' = self
  /\ exists samples,
      (length samples < fuel)%nat
      /\ out = sequence w ++ samples ++ [VStr ""]
      /\ Forall (fun s => s <> VStr "") samples
      /\ draws self rand k i (sequence w) samples.
Proof.
  revert i w. induction fuel as [|fuel IH]; intros i w W H; simpl in H.
  - discriminate.
  - unfold bind in H. rewrite walk_step_eq in H.
    destruct (result (random_suffix (rand i) (prefix_queue w)) self)
      as [suffix|e] eqn:R; [|discriminate].
    apply random_suffix_result in R.
    destruct (eq_dec suffix (VStr "")) as [E|E].
    + injection H as <- <-. split; [reflexivity|]. exists [].
      split; [simpl; lia|]. split; [now subst|].
      split; [constructor|].
      intros j J. simpl in J. assert (j = 0)%nat by lia. subst j.
      simpl. rewrite app_nil_r, Nat.add_0_r.
      destruct W as [_ <-]. now rewrite R, E.
    + apply IH in H; [|now apply window_ok_slide].
      destruct H as [-> [samples [L [O [N D]]]]]. split; [reflexivity|].
      exists (suffix :: samples). simpl in *.
      split; [lia|]. split; [now rewrite O, <- app_assoc|].
      split; [now constructor|].
      intros [|j] J; simpl.
      * rewrite app_nil_r, Nat.add_0_r. destruct W as [_ <-]. exact R.
      * specialize (D j ltac:(simpl in J; lia)).
        rewrite <- app_assoc in D. simpl in D.
        now rewrite Nat.add_succ_r.
Qed.

(** Conversely, such draws make the loop return, given enough fuel. *)
Lemma walk_loop_returns (k : nat) (rand : nat -> pyfloat) (self : Markov)
      (samples : list pyval) (fuel i : nat) (w : walk) :
  window_ok k w ->
  (length samples < fuel)%nat ->
  Forall (fun s => s <> VStr "") samples ->
  draws self rand k i (sequence w) samples ->
  walk_loop fuel (Z.of_nat k) rand i w self
  = (Ok (Some (sequence w ++ samples ++ [VStr ""])), self).
Proof.
  revert fuel i w.
  induction samples as [|suffix samples IH]; intros fuel i w W L N D;
    (destruct fuel as [|fuel]; [simpl in L; lia|]); simpl;
    unfold bind; rewrite walk_step_eq;
    pose proof (D 0%nat ltac:(simpl; lia)) as D0; simpl in D0;
    rewrite app_nil_r, Nat.add_0_r in D0;
    destruct W as [WL WE]; rewrite <- WE in D0;
    apply random_suffix_result in D0; rewrite D0.
  - destruct (eq_dec (VStr "") (VStr "")); [reflexivity | congruence].
  - inversion N as [|? ? N0 N']; subst.
    destruct (eq_dec suffix (VStr "")); [contradiction|].
    rewrite IH.
    + simpl. now rewrite <- app_assoc.
    + apply window_ok_slide. now split.
    + simpl in L. lia.
    + assumption.
    + intros j J. specialize (D (S j) ltac:(simpl; lia)). simpl in *.
      rewrite <- app_assoc. simpl. now rewrite Nat.add_succ_r in D.
Qed.
End WalkFacts.

(** C6. [random_sequence] raises [ValueError] on a prefix whose length is
    not [n - 1].  On a prefix of [n - 1] tokens it returns [out] exactly
    when [out] is the prefix, then suffixes none of which is [""], then
    [""], where each of these was sampled, with that turn's draw, for the
    window of the last [n - 1] tokens of what had been produced before it;
    fewer turns than the fuel suffice then, and the instance is unchanged. *)
Theorem random_sequence_walk {F : PyFloat} (self : Markov)
        (rand : nat -> pyfloat) (prefix : list pyval) (fuel : nat) :
  (Z.of_nat (length prefix) <> n self - 1 ->
   random_sequence fuel rand prefix self = (Raise ValueError, self))
  /\ (Z.of_nat (length prefix) = n self - 1 ->
      forall out self',
        random_sequence fuel rand prefix self = (Ok (Some out), self') <->
        self' = self
        /\ exists samples,
            (length samples < fuel)%nat
            /\ out = prefix ++ samples ++ [VStr ""]
            /\ Forall (fun s => s <> VStr "") samples
            /\ draws self rand (length prefix) 0 prefix samples).
Proof.
  split.
  - intros L. unfold random_sequence. run_method.
    apply Z.eqb_neq in L. now rewrite L.
  - intros L out self'.
    assert (W : window_ok (length prefix) (mkWalk prefix prefix))
      by (split; simpl; [reflexivity | now rewrite lastn_whole]).
    assert (R : random_sequence fuel rand prefix self
                = walk_loop fuel (Z.of_nat (length prefix)) rand 0
                            (mkWalk prefix prefix) self).
    { unfold random_sequence. run_method.
      rewrite (proj2 (Z.eqb_eq _ _) L). simpl.
      rewrite deque_init_full by lia. now rewrite L. }
    rewrite R. split.
    + intros H. now apply (walk_loop_returned _ _ _ _ _ _ _ _ W) in H.
    + intros [-> [samples [B [-> [N D]]]]].
      now apply (walk_loop_returns _ _ _ samples _ _ _ W).
Qed.

Lemma random_sequence_walk_witness :
  random_sequence (F := Py64) 3 (fun _ => 0.5%float) [] a_then_end
  = (Raise ValueError, a_then_end)
  /\ exists samples,
      [VStr "a"; VStr ""] = [VStr "a"] ++ samples ++ [VStr ""]
      /\ Forall (fun s => s <> VStr "") samples.
Proof.
  split.
  - apply (proj1 (random_sequence_walk (F := Py64) a_then_end
                    (fun _ => 0.5%float) [] 3)).
    simpl. lia.
  - destruct (proj1 (proj2 (random_sequence_walk (F := Py64) a_then_end
                              (fun _ => 0.5%float) [VStr "a"] 3)
                           eq_refl [VStr "a"; VStr ""] a_then_end)
                    eq_refl)
      as [_ [samples [_ [O [N _]]]]].
    exists samples. split; [exact O | exact N].
Defined.

(** ** Turns of the loop that go round again *)

Section Turns.
Context {F : PyFloat}.

Lemma walk_step_state (maxlen : Z) (threshhold : pyfloat) (w : walk)
      (self : Markov) :
  snd (walk_step maxlen threshhold w self) = self.
Proof. now rewrite walk_step_eq. Qed.

Lemma walk_iter_first (j : nat) (maxlen : Z) (rand : nat -> pyfloat)
      (i : nat) (w0 w : walk) (self self' : Markov) :
  walk_iter (S j) maxlen rand i w0 self = (Ok (Continue w), self') ->
  exists w1,
    walk_step maxlen (rand i) w0 self = (Ok (Continue w1), self)
    /\ walk_iter j maxlen rand (S i) w1 self = (Ok (Continue w), self').
Proof.
  simpl. unfold bind.
  pose proof (walk_step_state maxlen (rand i) w0 self) as St.
  destruct (walk_step maxlen (rand i) w0 self) as [[[w1|r]|e] s];
    simpl in St; subst s; try discriminate.
  intros H. now exists w1.
Qed.

Lemma walk_iter_state (j : nat) (maxlen : Z) (rand : nat -> pyfloat)
      (i : nat) (w0 w : walk) (self self' : Markov) :
  walk_iter j maxlen rand i w0 self = (Ok (Continue w), self') ->
  self' = self.
Proof.
  revert i w0. induction j as [|j IH]; intros i w0 H.
  - simpl in H. unfold ret in H. congruence.
  - apply walk_iter_first in H. destruct H as [w1 [_ H]]. eauto.
Qed.

(** After [j] such turns the loop goes on from where they left it. *)
Lemma walk_loop_after (j f : nat) (maxlen : Z) (rand : nat -> pyfloat)
      (i : nat) (w0 w : walk) (self self' : Markov) :
  walk_iter j maxlen rand i w0 self = (Ok (Continue w), self') ->
  walk_loop (j + f) maxlen rand i w0 self
  = walk_loop f maxlen rand (i + j) w self.
Proof.
  revert i w0. induction j as [|j IH]; intros i w0 H.
  - simpl in H. unfold ret in H. injection H as <- _.
    now rewrite Nat.add_0_r.
  - apply walk_iter_first in H. destruct H as [w1 [St H]].
    simpl. unfold bind. rewrite St. rewrite (IH _ _ H).
    now rewrite Nat.add_succ_r.
Qed.

Lemma walk_iter_after (j m : nat) (maxlen : Z) (rand : nat -> pyfloat)
      (i : nat) (w0 w : walk) (self self' : Markov) :
  walk_iter j maxlen rand i w0 self = (Ok (Continue w), self') ->
  walk_iter (j + m) maxlen rand i w0 self
  = walk_iter m maxlen rand (i + j) w self.
Proof.
  revert i w0. induction j as [|j IH]; intros i w0 H.
  - simpl in H. unfold ret in H. injection H as <- _.
    now rewrite Nat.add_0_r.
  - apply walk_iter_first in H. destruct H as [w1 [St H]].
    simpl. unfold bind. rewrite St. rewrite (IH _ _ H).
    now rewrite Nat.add_succ_r.
Qed.

(** With no more fuel than that, the loop is still running. *)
Lemma walk_loop_running (j f : nat) (maxlen : Z) (rand : nat -> pyfloat)
      (i : nat) (w0 w : walk) (self self' : Markov) :
  walk_iter j maxlen rand i w0 self = (Ok (Continue w), self') ->
  (f <= j)%nat ->
  walk_loop f maxlen rand i w0 self = (Ok None, self).
Proof.
  revert j i w0. induction f as [|f IH]; intros j i w0 H L.
  - reflexivity.
  - destruct j as [|j]; [lia|].
    apply walk_iter_first in H. destruct H as [w1 [St H]].
    simpl. unfold bind. rewrite St. apply (IH j); [assumption | lia].
Qed.

Lemma walk_iter_window (k j : nat) (rand : nat -> pyfloat)
      (i : nat) (w0 w : walk) (self self' : Markov) :
  window_ok k w0 ->
  walk_iter j (Z.of_nat k) rand i w0 self = (Ok (Continue w), self') ->
  window_ok k w.
Proof.
  revert i w0. induction j as [|j IH]; intros i w0 W H.
  - simpl in H. unfold ret in H. congruence.
  - apply walk_iter_first in H. destruct H as [w1 [St H]].
    apply (IH (S i) w1); [|exact H].
    rewrite walk_step_eq in St.
    destruct (result (random_suffix (rand i) (prefix_queue w0)) self)
      as [suffix|e]; [|discriminate].
    destruct (eq_dec suffix (VStr "")); [discriminate|].
    injection St as <-. now apply window_ok_slide.
Qed.
End Turns.

Lemma all_strings (items : list pyval) :
  (forall tok, In tok items -> is_str tok = true) ->
  exists ss, items = map VStr ss.
Proof.
  induction items as [|x items IH]; intros A.
  - now exists [].
  - destruct IH as [ss ->]; [intros; apply A; now right|].
    assert (X : is_str x = true) by (apply A; now left).
    destruct x as [| |s]; try discriminate. now exists (s :: ss).
Qed.

Lemma Valid_positive (self : Markov) (k : string) (s : pyval) (c : Z) :
  Valid self -> lookup (graph self) k s = Some c -> 0 < c.
Proof.
  intros [_ G] L. unfold lookup in L.
  destruct (ODict.get k (graph self)) as [d|] eqn:D; [|discriminate].
  exact (SuffixesOK_get _ _ _ (GraphOK_get _ _ _ G D) L).
Qed.

(** C8. [Markov(n)] is an instance with an empty graph when [n] is an
    integer that is at least 2, a [ValueError] when [n] is a smaller
    integer and a [TypeError] when it is not an integer.  In every
    instance obtained from there by calls of [add_ngram] and of [update]
    (with instances obtained likewise) every count stored is positive, and
    a further such call loses no entry and lowers no count. *)
Theorem counts_positive_and_growing :
  (forall arg,
      __init__ arg
      = match arg with
        | VInt z => if 2 <=? z then Ok (mkMarkov z ODict.empty)
                    else Raise ValueError
        | _ => Raise TypeError
        end)
  /\ (forall self,
         reachable self ->
         2 <= n self
         /\ (forall k s c, lookup (graph self) k s = Some c -> 0 < c)
         /\ (forall ngram,
                grows (graph self) (graph (exec (add_ngram ngram) self)))
         /\ (forall other,
                reachable other ->
                grows (graph self) (graph (exec (update other) self)))).
Proof.
  split.
  - intros [|z|s]; simpl; try reflexivity.
    destruct (z <? 2) eqn:A, (2 <=? z) eqn:B; try reflexivity.
    + apply Z.ltb_lt in A. apply Z.leb_le in B. lia.
    + apply Z.ltb_ge in A. apply Z.leb_gt in B. lia.
  - intros self R. pose proof (reachable_Valid self R) as V.
    split; [apply V|]. split; [|split].
    + intros k s c. now apply Valid_positive.
    + intros ngram. apply add_ngram_grows.
    + intros other R'. apply update_grows. now apply reachable_Valid.
Qed.

Lemma counts_positive_and_growing_witness :
  2 <= n the_cat_dog
  /\ (forall k s c, lookup (graph the_cat_dog) k s = Some c -> 0 < c)
  /\ grows (graph the_cat_dog)
           (graph (exec (update the_cat_dog) the_cat_dog)).
Proof.
  assert (R : reachable the_cat_dog).
  { unfold the_cat_dog. repeat apply reach_add_ngram.
    apply (reach_init (VInt 2)). reflexivity. }
  destruct (proj2 counts_positive_and_growing the_cat_dog R)
    as [O [P [_ U]]].
  split; [exact O|]. split; [exact P | exact (U the_cat_dog R)].
Defined.

(** C9, as stated, fails: [add_ngram("a", 5)] on [Markov(2)] has a token
    that is not a string, and yet returns and records it. *)
Lemma add_ngram_accepts_non_string_suffix :
  Z.of_nat (length [VStr "a"; VInt 5]) = n (mkMarkov 2 ODict.empty)
  /\ (exists tok, In tok [VStr "a"; VInt 5] /\ is_str tok = false)
  /\ add_ngram [VStr "a"; VInt 5] (mkMarkov 2 ODict.empty)
     = (Ok tt, mkMarkov 2 [("a"%string, [(VInt 5, 1)])])
  /\ ~ (exists e, add_ngram [VStr "a"; VInt 5] (mkMarkov 2 ODict.empty)
                  = (Raise e, mkMarkov 2 ODict.empty)).
Proof.
  split; [reflexivity|]. split.
  - exists (VInt 5). split; [right; now left | reflexivity].
  - split; [reflexivity|]. intros [e H]. discriminate H.
Qed.

(** C9, amended.  On [n] tokens, [add_ngram] raises [TypeError] when one
    of the first [n - 1] is not a string; a call that raises, for this or
    any reason, leaves the instance as it was.  The last token need not be
    a string: when the first [n - 1] are strings and the last is [None], an
    integer or a string (the values of [pyval], all of which can be dict
    keys), the call returns and counts it as a suffix.  Nothing is stated
    about a last token that cannot be a dict key. *)
Theorem add_ngram_checks_prefix_only (self : Markov) (ngram : list pyval) :
  Z.of_nat (length ngram) = n self ->
  ((exists tok, In tok (but_last ngram) /\ is_str tok = false) ->
   add_ngram ngram self = (Raise TypeError, self))
  /\ (forall e self', add_ngram ngram self = (Raise e, self') -> self' = self)
  /\ (1 <= n self ->
      (forall tok, In tok (but_last ngram) -> is_str tok = true) ->
      exists key destination g',
        last_item ngram = Ok destination
        /\ join (but_last ngram) = Ok key
        /\ add_ngram ngram self = (Ok tt, mkMarkov (n self) g')
        /\ lookup g' key destination
           = Some (count (graph self) key destination + 1)).
Proof.
  intros L. split; [|split].
  - intros N. unfold add_ngram. run_method.
    rewrite (proj2 (Z.eqb_eq _ _) L). simpl.
    now rewrite (join_not_string _ N).
  - intros e self'. apply add_ngram_raise_unchanged.
  - intros O A.
    assert (N : ngram <> []) by (intros ->; simpl in L; lia).
    destruct (tuple_split ngram N) as [destination [E D]].
    destruct (all_strings _ A) as [ss S].
    assert (J : join (but_last ngram) = Ok (String.concat "" ss))
      by (rewrite S; apply join_strings).
    rewrite E in L.
    destruct (add_ngram_entries self (but_last ngram) (String.concat "" ss)
                destination L J) as [g' [R [C _]]].
    rewrite <- E in R.
    exists (String.concat "" ss), destination, g'. now repeat split.
Qed.

Lemma add_ngram_checks_prefix_only_witness :
  add_ngram [VInt 5; VStr "a"] (mkMarkov 2 ODict.empty)
  = (Raise TypeError, mkMarkov 2 ODict.empty)
  /\ exists key destination g',
      last_item [VStr "a"; VInt 5] = Ok destination
      /\ add_ngram [VStr "a"; VInt 5] (mkMarkov 2 ODict.empty)
         = (Ok tt, mkMarkov 2 g')
      /\ lookup g' key destination = Some 1.
Proof.
  split.
  - apply (proj1 (add_ngram_checks_prefix_only (mkMarkov 2 ODict.empty)
                    [VInt 5; VStr "a"] eq_refl)).
    exists (VInt 5). split; [now left | reflexivity].
  - destruct (proj2 (proj2 (add_ngram_checks_prefix_only
                              (mkMarkov 2 ODict.empty)
                              [VStr "a"; VInt 5] eq_refl)))
      as [key [destination [g' [D [_ [R C]]]]]].
    + simpl. lia.
    + intros tok [<-|[]]. reflexivity.
    + exists key, destination, g'.
      split; [exact D|]. split; [exact R | exact C].
Defined.

(** C10. Let a walk from a prefix of [n - 1] tokens, [n >= 2], have gone
    round [j] times and stand at a window of strings whose key is not in
    the graph.  The next turn draws [None], which is not [""], appends it
    to the sequence, slides it into the window and goes round again; the
    turn after that raises [TypeError].  So [random_sequence] raises
    [TypeError] once it has fuel for these [j + 2] turns, is still running
    with less, never returns, and in all cases leaves the instance as it
    was. *)
Theorem walk_fails_after_unseen_prefix {F : PyFloat} (self : Markov)
        (rand : nat -> pyfloat) (prefix : list pyval) (j : nat) (w : walk)
        (window : list string) :
  2 <= n self ->
  Z.of_nat (length prefix) = n self - 1 ->
  walk_iter j (n self - 1) rand 0
            (mkWalk (deque_init (n self - 1) prefix)
                    (deque_init (n self - 1) prefix)) self
  = (Ok (Continue w), self) ->
  prefix_queue w = map VStr window ->
  ODict.get (String.concat "" window) (graph self) = None ->
  exists w',
    walk_step (n self - 1) (rand j) w self = (Ok (Continue w'), self)
    /\ sequence w' = sequence w ++ [VNone]
    /\ prefix_queue w' = tl (prefix_queue w) ++ [VNone]
    /\ VNone <> VStr ""
    /\ walk_step (n self - 1) (rand (S j)) w' self = (Raise TypeError, self)
    /\ (forall fuel, (j + 2 <= fuel)%nat ->
          random_sequence fuel rand prefix self = (Raise TypeError, self))
    /\ (forall fuel, (fuel < j + 2)%nat ->
          random_sequence fuel rand prefix self = (Ok None, self)).
Proof.
  intros O L I Q U.
  rewrite (deque_init_full _ _ L) in I. revert I. rewrite <- L. intros I.
  assert (W0 : window_ok (length prefix) (mkWalk prefix prefix))
    by (split; simpl; [reflexivity | symmetry; apply lastn_whole]).
  pose proof (walk_iter_window _ _ _ _ _ _ _ _ W0 I) as [WL WE].
  assert (LW : length window = length prefix) by (now rewrite Q, length_map in WL).
  assert (NE : exists x rest, prefix_queue w = x :: rest).
  { destruct (prefix_queue w) as [|x rest]; [simpl in WL; lia|].
    now exists x, rest. }
  destruct NE as [x [rest QE]].
  set (w' := mkWalk (tl (prefix_queue w) ++ [VNone]) (sequence w ++ [VNone])).
  assert (S1 : walk_step (Z.of_nat (length prefix)) (rand j) w self
               = (Ok (Continue w'), self)).
  { assert (X : random_suffix (rand j) (map VStr window) self
                 = (Ok VNone, self))
      by (apply random_suffix_unseen; [rewrite LW; lia | exact U]).
    apply random_suffix_result in X.
    rewrite walk_step_eq. rewrite Q at 1. rewrite X.
    destruct (eq_dec VNone (VStr "")); [discriminate|].
    rewrite deque_append_full by congruence.
    unfold w'. now rewrite QE. }
  assert (S2 : walk_step (Z.of_nat (length prefix)) (rand (S j)) w' self
               = (Raise TypeError, self)).
  { assert (X : random_suffix (rand (S j)) (prefix_queue w') self
                 = (Raise TypeError, self)).
    { apply random_suffix_not_string.
      - unfold w'. simpl. rewrite QE. simpl. rewrite length_app. simpl.
        rewrite QE in WL. simpl in WL. lia.
      - exists VNone. split; [|reflexivity].
        unfold w'. simpl. apply in_or_app. right. now left. }
    apply random_suffix_result in X.
    rewrite walk_step_eq, X. reflexivity. }
  assert (R : forall fuel,
             random_sequence fuel rand prefix self
             = walk_loop fuel (Z.of_nat (length prefix)) rand 0 (mkWalk prefix prefix) self).
  { intros fuel. unfold random_sequence. run_method.
    rewrite <- L, Z.eqb_refl. simpl.
    now rewrite deque_init_full by reflexivity. }
  exists w'. split; [exact S1|]. split; [reflexivity|].
  split; [reflexivity|]. split; [discriminate|]. split; [exact S2|]. split.
  - intros fuel B. rewrite R.
    replace fuel with (j + S (S (fuel - j - 2)))%nat by lia.
    rewrite (walk_loop_after _ _ _ _ _ _ _ _ _ I). simpl.
    unfold bind. rewrite S1, S2. reflexivity.
  - intros fuel B. rewrite R.
    apply (walk_loop_running (j + 1) fuel _ _ _ _ w' self self); [|lia].
    rewrite (walk_iter_after _ _ _ _ _ _ _ _ _ I). simpl.
    unfold bind. now rewrite S1.
Qed.

Lemma walk_fails_after_unseen_prefix_witness :
  random_sequence (F := Py64) 5 (fun _ => 0.5%float) [VStr "the"] the_cat_dog
  = (Raise TypeError, the_cat_dog).
Proof.
  destruct (walk_fails_after_unseen_prefix (F := Py64) the_cat_dog
              (fun _ => 0.5%float) [VStr "the"] 1
              (mkWalk [VStr "dog"] [VStr "the"; VStr "dog"]) ["dog"%string]
              ltac:(simpl; lia) eq_refl eq_refl eq_refl eq_refl)
    as [w' [_ [_ [_ [_ [_ [H _]]]]]]].
  apply H. lia.
Defined.

(** * Further properties of the methods *)

(** ** What the reading methods return and raise *)

Lemma not_all_strings (items : list pyval) :
  forallb is_str items = false ->
  exists tok, In tok items /\ is_str tok = false.
Proof.
  induction items as [|x items IH]; simpl; [discriminate|].
  destruct (is_str x) eqn:E; simpl.
  - intros H. destruct (IH H) as [tok [I N]]. exists tok. split;
      [now right | assumption].
  - intros _. exists x. split; [now left | assumption].
Qed.

Lemma walk_loop_state {F : PyFloat} (fuel : nat) (maxlen : Z)
      (rand : nat -> pyfloat) (i : nat) (w : walk) (self : Markov) :
  snd (walk_loop fuel maxlen rand i w self) = self.
Proof.
  revert i w. induction fuel as [|fuel IH]; intros i w; simpl.
  - reflexivity.
  - unfold bind.
    pose proof (walk_step_state maxlen (rand i) w self) as St.
    destruct (walk_step maxlen (rand i) w self) as [[[w1|r]|e] s];
      simpl in St; subst s; [apply IH | reflexivity | reflexivity].
Qed.

Lemma get_ngrams_eq {F : PyFloat} (prefix : list pyval) (self self' : Markov)
      (mapping : ODict.odict pyval pyfloat) :
  get_suffixes prefix self = (Ok mapping, self') ->
  get_ngrams prefix self
  = (Ok (map (fun item : pyval * pyfloat =>
                (prefix ++ [fst item], snd item)) mapping), self').
Proof.
  intros G. pose proof (get_suffixes_wf _ _ _ _ G) as W.
  unfold get_ngrams, bind. rewrite G. unfold ret.
  rewrite ngram_fold; [reflexivity | assumption | intros s _ []].
Qed.

(** X1. On an instance that satisfies the class invariant, [get_suffixes]
    has three outcomes and no other: a [ValueError] when the prefix has not
    [n - 1] tokens (whatever the tokens are), a [TypeError] when it has
    [n - 1] tokens one of which is not a string, and a mapping otherwise.  In
    particular the division never fails.  The instance is unchanged in all
    three. *)
Theorem get_suffixes_outcome {F : PyFloat} (self : Markov)
        (prefix : list pyval) :
  valid self = true ->
  (Z.of_nat (length prefix) <> n self - 1
   /\ get_suffixes prefix self = (Raise ValueError, self))
  \/ (Z.of_nat (length prefix) = n self - 1
      /\ forallb is_str prefix = false
      /\ get_suffixes prefix self = (Raise TypeError, self))
  \/ (Z.of_nat (length prefix) = n self - 1
      /\ forallb is_str prefix = true
      /\ exists mapping, get_suffixes prefix self = (Ok mapping, self)).
Proof.
  intros V. apply valid_iff in V. destruct V as [_ G].
  destruct (Z.eq_dec (Z.of_nat (length prefix)) (n self - 1)) as [L|L].
  - right. destruct (forallb is_str prefix) eqn:A.
    + right. split; [assumption|]. split; [reflexivity|].
      destruct (all_strings prefix (proj1 (forallb_forall _ _) A))
        as [ss ->].
      destruct (ODict.get (String.concat "" ss) (graph self))
        as [suffixes|] eqn:S.
      * exists (distribution suffixes).
        eapply get_suffixes_seen; eauto using join_strings.
        eapply GraphOK_get; eauto.
      * exists ODict.empty.
        eapply get_suffixes_unseen; eauto using join_strings.
    + left. split; [assumption|]. split; [reflexivity|].
      apply get_suffixes_not_string; [assumption|].
      now apply not_all_strings.
  - left. split; [assumption|]. now apply get_suffixes_bad_length.
Qed.

Lemma get_suffixes_outcome_witness :
  (Z.of_nat (length [VInt 1; VNone]) <> n the_cat_dog - 1
   /\ get_suffixes (F := Py64) [VInt 1; VNone] the_cat_dog
      = (Raise ValueError, the_cat_dog))
  \/ (Z.of_nat (length [VInt 1; VNone]) = n the_cat_dog - 1
      /\ forallb is_str [VInt 1; VNone] = false
      /\ get_suffixes (F := Py64) [VInt 1; VNone] the_cat_dog
         = (Raise TypeError, the_cat_dog))
  \/ (Z.of_nat (length [VInt 1; VNone]) = n the_cat_dog - 1
      /\ forallb is_str [VInt 1; VNone] = true
      /\ exists mapping,
          get_suffixes (F := Py64) [VInt 1; VNone] the_cat_dog
          = (Ok mapping, the_cat_dog)).
Proof.
  exact (get_suffixes_outcome (F := Py64) the_cat_dog [VInt 1; VNone]
                              eq_refl).
Defined.

(** X2. [get_ngrams] raises exactly when [get_suffixes] does on the same
    prefix, and then the same exception; it adds no failure of its own. *)
Theorem get_ngrams_raises {F : PyFloat} (self self' : Markov)
        (prefix : list pyval) (e : exn) :
  get_ngrams prefix self = (Raise e, self') <->
  get_suffixes prefix self = (Raise e, self').
Proof.
  unfold get_ngrams, bind, ret.
  destruct (get_suffixes prefix self) as [[mapping|e'] s]; simpl; split;
    intros H; try discriminate; injection H as -> ->; reflexivity.
Qed.

Lemma get_ngrams_raises_witness :
  get_ngrams (F := Py64) [] the_cat_dog = (Raise ValueError, the_cat_dog).
Proof.
  exact (proj2 (get_ngrams_raises (F := Py64) the_cat_dog the_cat_dog []
                                  ValueError) eq_refl).
Defined.

(** X3. [random_ngram] returns the prefix followed by what [random_suffix]
    returns for the same draw, and raises what it raises.  What it returns
    is a key of [get_ngrams] of that prefix, or the prefix followed by
    [None]. *)
Theorem random_ngram_of_suffix {F : PyFloat} (self : Markov)
        (threshhold : pyfloat) (prefix : list pyval) :
  random_ngram threshhold prefix self
  = (match result (random_suffix threshhold prefix) self with
     | Ok suffix => Ok (prefix ++ [suffix])
     | Raise e => Raise e
     end, self)
  /\ (forall ngram ngram_mapping self',
         random_ngram threshhold prefix self = (Ok ngram, self') ->
         get_ngrams prefix self = (Ok ngram_mapping, self') ->
         In ngram (ODict.keys ngram_mapping) \/ ngram = prefix ++ [VNone]).
Proof.
  assert (E : random_ngram threshhold prefix self
              = (match result (random_suffix threshhold prefix) self with
                 | Ok suffix => Ok (prefix ++ [suffix])
                 | Raise e => Raise e
                 end, self)).
  { unfold random_ngram, bind, ret, result.
    pose proof (random_suffix_state threshhold prefix self) as St.
    destruct (random_suffix threshhold prefix self) as [[suffix|e] s];
      simpl in *; now subst. }
  split; [exact E|].
  intros ngram ngram_mapping self' R G. rewrite E in R.
  unfold result in R. rewrite random_suffix_eq in R. simpl in R.
  unfold result in R.
  destruct (get_suffixes prefix self) as [[mapping|e] s] eqn:S;
    simpl in R; [|discriminate].
  injection R as <- <-.
  rewrite (get_ngrams_eq _ _ _ _ S) in G. injection G as <- _.
  destruct (scan_key_or_none threshhold fzero mapping) as [N|I].
  - right. now rewrite N.
  - left. unfold ODict.keys in *. rewrite map_map. simpl.
    apply in_map_iff in I. destruct I as [item [A B]].
    apply in_map_iff. exists item. split; [now rewrite A | assumption].
Qed.

Lemma random_ngram_of_suffix_witness :
  In [VStr "the"; VStr "dog"]
     (ODict.keys [([VStr "the"; VStr "cat"], @truediv Py64 1 3);
                  ([VStr "the"; VStr "dog"], @truediv Py64 2 3)])
  \/ [VStr "the"; VStr "dog"] = [VStr "the"] ++ [VNone].
Proof.
  exact (proj2 (random_ngram_of_suffix (F := Py64) the_cat_dog 0.5%float
                                       [VStr "the"])
               [VStr "the"; VStr "dog"]
               [([VStr "the"; VStr "cat"], @truediv Py64 1 3);
                ([VStr "the"; VStr "dog"], @truediv Py64 2 3)]
               the_cat_dog eq_refl eq_refl).
Defined.

(** X4. No reading method changes the instance, whether it returns or
    raises: [get_suffixes], [get_ngrams], [random_suffix], [random_ngram]
    and [random_sequence] all hand it back as they got it. *)
Theorem reads_do_not_mutate {F : PyFloat} (self : Markov)
        (prefix : list pyval) (threshhold : pyfloat)
        (rand : nat -> pyfloat) (fuel : nat) :
  exec (get_suffixes prefix) self = self
  /\ exec (get_ngrams prefix) self = self
  /\ exec (random_suffix threshhold prefix) self = self
  /\ exec (random_ngram threshhold prefix) self = self
  /\ exec (random_sequence fuel rand prefix) self = self.
Proof.
  unfold exec. split; [apply get_suffixes_state|].
  split; [|split; [apply random_suffix_state|split]].
  - unfold get_ngrams, bind, ret.
    pose proof (get_suffixes_state prefix self) as St.
    destruct (get_suffixes prefix self) as [[mapping|e] s]; exact St.
  - unfold random_ngram, bind, ret.
    pose proof (random_suffix_state threshhold prefix self) as St.
    destruct (random_suffix threshhold prefix self) as [[suffix|e] s];
      exact St.
  - unfold random_sequence. run_method.
    destruct (Z.of_nat (length prefix) =? n self - 1); simpl;
      [apply walk_loop_state | reflexivity].
Qed.

(** ** Which suffix the sampler returns *)




(** X6. A walk started from a prefix of [n - 1] tokens one of which is not
    a string does not get past its first turn: [random_sequence] raises
    [TypeError], and the instance is unchanged. *)
Theorem random_sequence_rejects_non_strings {F : PyFloat} (self : Markov)
        (rand : nat -> pyfloat) (prefix : list pyval) (fuel : nat) :
  Z.of_nat (length prefix) = n self - 1 ->
  (exists tok, In tok prefix /\ is_str tok = false) ->
  random_sequence (S fuel) rand prefix self = (Raise TypeError, self).
Proof.
  intros L N. unfold random_sequence. run_method.
  rewrite (proj2 (Z.eqb_eq _ _) L). simpl.
  rewrite deque_init_full by lia. unfold bind.
  assert (X : random_suffix (rand 0%nat) prefix self
              = (Raise TypeError, self))
    by now apply random_suffix_not_string.
  apply random_suffix_result in X.
  rewrite walk_step_eq. simpl. now rewrite X.
Qed.

Lemma random_sequence_rejects_non_strings_witness :
  random_sequence (F := Py64) 1 (fun _ => 0.5%float) [VNone] the_cat_dog
  = (Raise TypeError, the_cat_dog).
Proof.
  apply (random_sequence_rejects_non_strings (F := Py64) the_cat_dog
           (fun _ => 0.5%float) [VNone] 0 eq_refl).
  exists VNone. split; [now left | reflexivity].
Defined.

(** ** Ingestion: counts, totals and order *)

Lemma add_ngram_n (self : Markov) (ngram : list pyval) :
  n (exec (add_ngram ngram) self) = n self.
Proof.
  unfold exec, add_ngram. run_method.
  destruct (Z.of_nat (length ngram) =? n self); simpl; [|reflexivity].
  destruct (join (but_last ngram)) as [source|]; [|reflexivity].
  destruct (last_item ngram) as [destination|]; [|reflexivity].
  destruct (ODict.get source (graph self)) as [suffixes|]; [|reflexivity].
  destruct (ODict.get destination suffixes); reflexivity.
Qed.

Lemma length_ngram (prefix : list string) (destination : pyval) (m : Z) :
  Z.of_nat (length prefix) = m - 1 ->
  Z.of_nat (length (map VStr prefix ++ [destination])) = m.
Proof. intros L. rewrite length_app, length_map. simpl. lia. Qed.

(** The count of every pair after a well-formed call. *)
Lemma add_ngram_count (self : Markov) (prefix : list string)
      (destination : pyval) (k : string) (s : pyval) :
  Z.of_nat (length prefix) = n self - 1 ->
  count (graph (exec (add_ngram (map VStr prefix ++ [destination])) self))
        k s
  = count (graph self) k s
    + (if eq_dec k (String.concat "" prefix)
       then if eq_dec s destination then 1 else 0
       else 0).
Proof.
  intros L.
  destruct (add_ngram_entries self (map VStr prefix)
              (String.concat "" prefix) destination
              (length_ngram prefix destination (n self) L)
              (join_strings prefix)) as [g' [R [A [B _]]]].
  unfold exec. rewrite R. simpl.
  destruct (eq_dec k (String.concat "" prefix)) as [E|E].
  - destruct (eq_dec s destination) as [E'|E'].
    + subst. unfold count at 1. rewrite A. reflexivity.
    + unfold count. rewrite B by (now right). lia.
  - unfold count. rewrite B by (now left). lia.
Qed.

Lemma add_ngram_returns (self : Markov) (prefix : list string)
      (destination : pyval) :
  Z.of_nat (length prefix) = n self - 1 ->
  result (add_ngram (map VStr prefix ++ [destination])) self = Ok tt.
Proof.
  intros L.
  destruct (add_ngram_entries self (map VStr prefix)
              (String.concat "" prefix) destination
              (length_ngram prefix destination (n self) L)
              (join_strings prefix)) as [g' [R _]].
  unfold result. now rewrite R.
Qed.

(** X7. Two n-grams of string prefixes can be ingested in either order:
    both calls return both ways round, and every pair has the same count
    afterwards.  (The graphs may differ in the order of their keys.) *)
Theorem add_ngram_commutes (self : Markov) (p1 p2 : list string)
        (d1 d2 : pyval) :
  Z.of_nat (length p1) = n self - 1 ->
  Z.of_nat (length p2) = n self - 1 ->
  result (add_ngram (map VStr p2 ++ [d2]))
         (exec (add_ngram (map VStr p1 ++ [d1])) self) = Ok tt
  /\ result (add_ngram (map VStr p1 ++ [d1]))
            (exec (add_ngram (map VStr p2 ++ [d2])) self) = Ok tt
  /\ forall k s,
      count (graph (exec (add_ngram (map VStr p2 ++ [d2]))
                         (exec (add_ngram (map VStr p1 ++ [d1])) self))) k s
      = count (graph (exec (add_ngram (map VStr p1 ++ [d1]))
                           (exec (add_ngram (map VStr p2 ++ [d2])) self)))
              k s.
Proof.
  intros L1 L2.
  pose proof (add_ngram_n self (map VStr p1 ++ [d1])) as N1.
  pose proof (add_ngram_n self (map VStr p2 ++ [d2])) as N2.
  split; [apply add_ngram_returns; now rewrite N1|].
  split; [apply add_ngram_returns; now rewrite N2|].
  intros k s.
  rewrite !add_ngram_count by (assumption || now rewrite ?N1, ?N2).
  lia.
Qed.

Lemma add_ngram_commutes_witness :
  count (graph (exec (add_ngram (map VStr ["the"%string] ++ [VStr "dog"]))
                     (exec (add_ngram (map VStr ["a"%string] ++ [VInt 5]))
                           the_cat_dog))) "a" (VInt 5)
  = count (graph (exec (add_ngram (map VStr ["a"%string] ++ [VInt 5]))
                       (exec (add_ngram
                                (map VStr ["the"%string] ++ [VStr "dog"]))
                             the_cat_dog))) "a" (VInt 5).
Proof.
  exact (proj2 (proj2 (add_ngram_commutes the_cat_dog ["a"%string]
                         ["the"%string] (VInt 5) (VStr "dog")
                         eq_refl eq_refl)) "a"%string (VInt 5)).
Defined.

(** X8. Ingesting the same n-gram [k] times raises the count of its pair
    by [k] and changes the count of no other pair; [n] stays as it is. *)
Theorem add_ngram_repeated (self : Markov) (prefix : list string)
        (destination : pyval) (k : nat) :
  Z.of_nat (length prefix) = n self - 1 ->
  n (Nat.iter k (exec (add_ngram (map VStr prefix ++ [destination]))) self)
  = n self
  /\ forall key s,
      count (graph (Nat.iter k
                      (exec (add_ngram (map VStr prefix ++ [destination])))
                      self)) key s
      = count (graph self) key s
        + (if eq_dec key (String.concat "" prefix)
           then if eq_dec s destination then Z.of_nat k else 0
           else 0).
Proof.
  intros L. induction k as [|k [IHn IHc]].
  - split; [reflexivity|]. intros key s. simpl.
    destruct (eq_dec key (String.concat "" prefix));
      [destruct (eq_dec s destination)|]; lia.
  - split.
    + simpl. now rewrite add_ngram_n.
    + intros key s. simpl Nat.iter.
      rewrite add_ngram_count by (now rewrite IHn). rewrite IHc.
      destruct (eq_dec key (String.concat "" prefix));
        [destruct (eq_dec s destination)|]; lia.
Qed.

Lemma add_ngram_repeated_witness :
  count (graph (Nat.iter 4
                  (exec (add_ngram (map VStr ["the"%string] ++ [VStr "dog"])))
                  the_cat_dog)) "the" (VStr "dog") = 6.
Proof.
  exact (proj2 (add_ngram_repeated the_cat_dog ["the"%string] (VStr "dog") 4
                                   eq_refl) "the"%string (VStr "dog")).
Defined.

Lemma sum_values_set (d : ODict.odict pyval Z) (s : pyval) (c : Z) :
  sum_values (ODict.set s c d)
  = sum_values d + c
    - match ODict.get s d with Some c0 => c0 | None => 0 end.
Proof.
  induction d as [|[s0 c0] d IH]; simpl.
  - unfold sum_values. simpl. lia.
  - destruct (eq_dec s s0) as [E|E]; rewrite !sum_values_cons; [lia|].
    rewrite IH. lia.
Qed.

(** X9. A well-formed [add_ngram] raises by one the sum of the counts
    recorded under its prefix key, the denominator of [get_suffixes] for
    that key, and leaves the sum under every other key as it was. *)
Theorem add_ngram_total (self : Markov) (prefix : list string)
        (destination : pyval) :
  Z.of_nat (length prefix) = n self - 1 ->
  total (graph (exec (add_ngram (map VStr prefix ++ [destination])) self))
        (String.concat "" prefix)
  = total (graph self) (String.concat "" prefix) + 1
  /\ forall k,
      k <> String.concat "" prefix ->
      total (graph (exec (add_ngram (map VStr prefix ++ [destination]))
                         self)) k
      = total (graph self) k.
Proof.
  intros L. unfold exec.
  rewrite (add_ngram_ok self (map VStr prefix) (String.concat "" prefix)
             destination (length_ngram prefix destination (n self) L)
             (join_strings prefix)).
  simpl. unfold total. split.
  - rewrite get_set_same.
    destruct (ODict.get (String.concat "" prefix) (graph self))
      as [suffixes|].
    + rewrite sum_values_set.
      destruct (ODict.get destination suffixes); lia.
    + reflexivity.
  - intros k N. now rewrite get_set_other by congruence.
Qed.

Lemma add_ngram_total_witness :
  total (graph (exec (add_ngram (map VStr ["the"%string] ++ [VStr "cat"]))
                     the_cat_dog)) "the" = 4.
Proof.
  exact (proj1 (add_ngram_total the_cat_dog ["the"%string] (VStr "cat")
                                eq_refl)).
Defined.

(** X10. Ingestion keeps the order of first observation.  A well-formed
    [add_ngram] leaves the prefix keys in their order, the new key last if
    it was not recorded; under its key it leaves the suffixes in their
    order, the new suffix last if it was not recorded; the suffix mappings
    of the other keys are untouched. *)
Theorem add_ngram_keeps_order (self : Markov) (prefix : list string)
        (destination : pyval) :
  Z.of_nat (length prefix) = n self - 1 ->
  ODict.keys (graph (exec (add_ngram (map VStr prefix ++ [destination]))
                          self))
  = (if ODict.mem (String.concat "" prefix) (graph self)
     then ODict.keys (graph self)
     else ODict.keys (graph self) ++ [String.concat "" prefix])
  /\ (exists suffixes',
         ODict.get (String.concat "" prefix)
                   (graph (exec (add_ngram (map VStr prefix ++ [destination]))
                                self)) = Some suffixes'
         /\ ODict.keys suffixes'
            = match ODict.get (String.concat "" prefix) (graph self) with
              | None => [destination]
              | Some suffixes =>
                  if ODict.mem destination suffixes
                  then ODict.keys suffixes
                  else ODict.keys suffixes ++ [destination]
              end)
  /\ (forall k,
         k <> String.concat "" prefix ->
         ODict.get k (graph (exec (add_ngram
                                     (map VStr prefix ++ [destination]))
                                  self))
         = ODict.get k (graph self)).
Proof.
  intros L. unfold exec.
  rewrite (add_ngram_ok self (map VStr prefix) (String.concat "" prefix)
             destination (length_ngram prefix destination (n self) L)
             (join_strings prefix)).
  simpl. split; [|split].
  - rewrite keys_set. unfold ODict.mem.
    now destruct (ODict.get (String.concat "" prefix) (graph self)).
  - eexists. split; [apply get_set_same|].
    destruct (ODict.get (String.concat "" prefix) (graph self))
      as [suffixes|]; [|reflexivity].
    rewrite keys_set. unfold ODict.mem.
    now destruct (ODict.get destination suffixes).
  - intros k N. now rewrite get_set_other by congruence.
Qed.

Lemma add_ngram_keeps_order_witness :
  ODict.keys (graph (exec (add_ngram (map VStr ["a"%string] ++ [VStr "b"]))
                          the_cat_dog))
  = ["the"%string; "a"%string].
Proof.
  exact (proj1 (add_ngram_keeps_order the_cat_dog ["a"%string] (VStr "b")
                                      eq_refl)).
Defined.

(** ** Merging: identities, order of merges, totals and key order *)

Lemma update_n (self other : Markov) :
  n (exec (update other) self) = n self.
Proof.
  unfold exec, update. run_method.
  destruct (n self =? n other); reflexivity.
Qed.

Lemma update_count (self other : Markov) (k : string) (s : pyval) :
  n self = n other -> GraphOK (graph other) ->
  count (graph (exec (update other) self)) k s
  = count (graph self) k s + count (graph other) k s.
Proof.
  intros E G. unfold exec. rewrite update_ok by assumption. simpl.
  unfold count. rewrite update_graph_lookup by assumption.
  apply count_opt_add.
Qed.

Lemma update_graph_fresh (other g : ODict.odict string (ODict.odict pyval Z)) :
  ODict.wf other ->
  (forall k, In k (ODict.keys other) -> ~ In k (ODict.keys g)) ->
  update_graph g other = g ++ other.
Proof.
  unfold update_graph, ODict.wf. revert g.
  induction other as [|[k d] rest IH]; intros g W D; simpl.
  - now rewrite app_nil_r.
  - inversion W as [|? ? N W']; subst.
    assert (A : ODict.get k g = None)
      by (apply get_none_not_in; apply D; now left).
    rewrite A, set_absent by assumption.
    rewrite IH; [now rewrite <- app_assoc | assumption |].
    intros k' I. unfold ODict.keys. rewrite map_app, in_app_iff.
    intros [B|[<-|[]]]; [|contradiction].
    apply (D k'); [now right | assumption].
Qed.

(** X11. Merging an empty model of the same order changes nothing, and
    merging a model into an empty one of the same order yields that model:
    the same graph, keys in the same order. *)
Theorem update_identities (self : Markov) :
  update (mkMarkov (n self) ODict.empty) self = (Ok tt, self)
  /\ (valid self = true ->
      update self (mkMarkov (n self) ODict.empty) = (Ok tt, self)).
Proof.
  split.
  - rewrite update_ok by reflexivity. now destruct self.
  - intros V. apply valid_iff in V. destruct V as [_ [W _]].
    rewrite update_ok by reflexivity. simpl.
    rewrite update_graph_fresh; [now destruct self | assumption |].
    intros k _ [].
Qed.

Lemma update_identities_witness :
  update the_cat_dog (mkMarkov 2 ODict.empty) = (Ok tt, the_cat_dog).
Proof.
  exact (proj2 (update_identities the_cat_dog) eq_refl).
Defined.

(** X12. On counts, merging is commutative and associative: for models of
    one order, [a.update(b)] and [b.update(a)] leave the same count for
    every pair, and so do merging [b] then [c] into [a] and merging into
    [a] the result of merging [c] into [b]. *)
Theorem update_counts_commute (a b c : Markov) :
  valid a = true -> valid b = true -> valid c = true ->
  n a = n b -> n b = n c ->
  (forall k s,
      count (graph (exec (update b) a)) k s
      = count (graph (exec (update a) b)) k s)
  /\ (forall k s,
         count (graph (exec (update c) (exec (update b) a))) k s
         = count (graph (exec (update (exec (update c) b)) a)) k s).
Proof.
  intros Va Vb Vc Eab Ebc.
  apply valid_iff in Va, Vb, Vc.
  pose proof (update_Valid b c Vb Vc) as Vbc.
  split; intros k s.
  - rewrite !update_count by (try congruence; apply Va || apply Vb). lia.
  - rewrite (update_count (exec (update b) a) c)
      by (rewrite ?update_n; try congruence; apply Vc).
    rewrite (update_count a (exec (update c) b))
      by (rewrite ?update_n; try congruence; apply Vbc).
    rewrite (update_count a b) by (try congruence; apply Vb).
    rewrite (update_count b c) by (try congruence; apply Vc).
    lia.
Qed.

Lemma update_counts_commute_witness :
  count (graph (exec (update a_then_end) the_cat_dog)) "the" (VStr "dog")
  = count (graph (exec (update the_cat_dog) a_then_end)) "the" (VStr "dog").
Proof.
  exact (proj1 (update_counts_commute the_cat_dog a_then_end seven_suffixes
                  eq_refl eq_refl eq_refl eq_refl eq_refl)
               "the"%string (VStr "dog")).
Defined.

(** X13. Merging distributes over ingestion: merging into [self] a model
    to which an n-gram has been added leaves the counts that merging the
    model and then adding the n-gram to [self] leaves. *)
Theorem update_after_add_ngram (self other : Markov) (prefix : list string)
        (destination : pyval) :
  valid other = true ->
  n self = n other ->
  Z.of_nat (length prefix) = n self - 1 ->
  forall k s,
    count (graph (exec (update
                          (exec (add_ngram (map VStr prefix ++ [destination]))
                                other)) self)) k s
    = count (graph (exec (add_ngram (map VStr prefix ++ [destination]))
                         (exec (update other) self))) k s.
Proof.
  intros V E L k s. apply valid_iff in V.
  pose proof (add_ngram_Valid other (map VStr prefix ++ [destination]) V)
    as V'.
  rewrite update_count
    by (rewrite ?add_ngram_n; try assumption; apply V').
  rewrite !add_ngram_count by (rewrite ?update_n; congruence).
  rewrite update_count by (try assumption; apply V). lia.
Qed.

Lemma update_after_add_ngram_witness :
  count (graph (exec (update
                        (exec (add_ngram (map VStr ["x"%string] ++ [VNone]))
                              a_then_end)) the_cat_dog)) "x" VNone
  = count (graph (exec (add_ngram (map VStr ["x"%string] ++ [VNone]))
                       (exec (update a_then_end) the_cat_dog))) "x" VNone.
Proof.
  exact (update_after_add_ngram the_cat_dog a_then_end ["x"%string] VNone
           eq_refl eq_refl eq_refl "x"%string VNone).
Defined.

Lemma sum_values_update_suffixes (suffixes mine : ODict.odict pyval Z) :
  sum_values (update_suffixes mine suffixes)
  = sum_values mine + sum_values suffixes.
Proof.
  unfold update_suffixes. revert mine.
  induction suffixes as [|[s c] rest IH]; intros mine; simpl.
  - unfold sum_values at 3. simpl. lia.
  - rewrite IH, sum_values_cons.
    destruct (ODict.get s mine) as [c0|] eqn:G;
      rewrite sum_values_set, G; lia.
Qed.

(** X14. After a merge of models of one order, the sum of the counts
    under every prefix key is the sum it had in [self] plus the sum it had
    in the other model (0 for a key that is not recorded). *)
Theorem update_total (self other : Markov) :
  n self = n other ->
  valid other = true ->
  forall k,
    total (graph (exec (update other) self)) k
    = total (graph self) k + total (graph other) k.
Proof.
  intros E V k. apply valid_iff in V. destruct V as [_ [W _]].
  unfold exec. rewrite update_ok by assumption. simpl. unfold total.
  rewrite update_graph_get by assumption.
  destruct (ODict.get k (graph self)) as [d|],
           (ODict.get k (graph other)) as [d'|]; try lia.
  apply sum_values_update_suffixes.
Qed.

Lemma update_total_witness :
  total (graph (exec (update the_cat_dog) the_cat_dog)) "the" = 6.
Proof.
  exact (update_total the_cat_dog the_cat_dog eq_refl eq_refl "the"%string).
Defined.

Section FoldKeys.
Context {K V W : Type} `{EqDec K}.
Variable step : ODict.odict K V -> K * W -> ODict.odict K V.
Hypothesis step_sets :
  forall acc k w, exists v, step acc (k, w) = ODict.set k v acc.

Lemma mem_set (g : ODict.odict K V) (k k0 : K) (v : V) :
  ODict.mem k (ODict.set k0 v g)
  = if eq_dec k k0 then true else ODict.mem k g.
Proof.
  unfold ODict.mem. destruct (eq_dec k k0) as [E|E].
  - subst. now rewrite get_set_same.
  - rewrite get_set_other by congruence. reflexivity.
Qed.

(** A loop of assignments keeps the keys in place and appends the new ones
    in the order it meets them. *)
Lemma fold_set_keys (other : list (K * W)) (g : ODict.odict K V) :
  NoDup (map fst other) ->
  ODict.keys (fold_left step other g)
  = ODict.keys g
    ++ filter (fun k => negb (ODict.mem k g)) (map fst other).
Proof.
  revert g. induction other as [|[k0 w0] rest IH]; intros g N; simpl.
  - now rewrite app_nil_r.
  - inversion N as [|? ? N0 N']; subst.
    destruct (step_sets g k0 w0) as [v E]. rewrite E.
    rewrite IH by assumption. rewrite keys_set.
    assert (X : filter (fun k => negb (ODict.mem k (ODict.set k0 v g)))
                       (map fst rest)
                = filter (fun k => negb (ODict.mem k g)) (map fst rest)).
    { apply filter_ext_in. intros k I. rewrite mem_set.
      destruct (eq_dec k k0); [subst; contradiction | reflexivity]. }
    rewrite X. unfold ODict.mem.
    destruct (ODict.get k0 g); simpl; [reflexivity|].
    now rewrite <- app_assoc.
Qed.
End FoldKeys.

(** X15. Merging keeps the order of first observation.  After a merge of
    models of one order the prefix keys of [self] are in their order,
    followed by the keys only the other model had, in its order; and the
    suffixes under a key of [self] are in their order, followed by the
    suffixes only the other model had under that key, in its order. *)
Theorem update_keeps_order (self other : Markov) :
  n self = n other ->
  valid other = true ->
  ODict.keys (graph (exec (update other) self))
  = ODict.keys (graph self)
    ++ filter (fun k => negb (ODict.mem k (graph self)))
              (ODict.keys (graph other))
  /\ forall k d,
      ODict.get k (graph self) = Some d ->
      exists d',
        ODict.get k (graph (exec (update other) self)) = Some d'
        /\ ODict.keys d'
           = ODict.keys d
             ++ filter (fun s => negb (ODict.mem s d))
                       (match ODict.get k (graph other) with
                        | Some theirs => ODict.keys theirs
                        | None => []
                        end).
Proof.
  intros E V. apply valid_iff in V. destruct V as [_ [W P]].
  unfold exec. rewrite update_ok by assumption. simpl. split.
  - unfold update_graph. apply fold_set_keys; [|exact W].
    intros acc k d. destruct (ODict.get k acc); eexists; reflexivity.
  - intros k d G. rewrite update_graph_get by assumption. rewrite G.
    destruct (ODict.get k (graph other)) as [theirs|] eqn:T.
    + eexists. split; [reflexivity|].
      unfold update_suffixes. apply fold_set_keys.
      * intros acc s c. destruct (ODict.get s acc); eexists; reflexivity.
      * apply get_some_in in T. apply (P _ _ T).
    + exists d. split; [reflexivity|]. simpl. now rewrite app_nil_r.
Qed.

Lemma update_keeps_order_witness :
  ODict.keys (graph (exec (update a_then_end) the_cat_dog))
  = ["the"%string; "a"%string].
Proof.
  exact (proj1 (update_keeps_order the_cat_dog a_then_end eq_refl eq_refl)).
Defined.

(** ** A walk that returns follows the graph *)

Lemma lastn_app_exact (pre window : list pyval) :
  lastn (length window) (pre ++ window) = window.
Proof.
  unfold lastn. rewrite length_app.
  replace (length pre + length window - length window)%nat
    with (length pre) by lia.
  induction pre as [|y pre IH]; [reflexivity | exact IH].
Qed.

Lemma snoc_cases (l : list pyval) :
  l = [] \/ exists l' y, l = l' ++ [y].
Proof.
  destruct l as [|x l]; [now left | right].
  destruct (@exists_last _ (x :: l)) as [l' [y E]]; [discriminate|].
  now exists l', y.
Qed.

Lemma recorded_ngrams_snoc (self : Markov) (k : nat) (w : walk) (s : pyval) :
  window_ok k w ->
  recorded_ngrams self k (sequence w) ->
  (exists ss c,
      prefix_queue w = map VStr ss
      /\ lookup (graph self) (String.concat "" ss) s = Some c /\ 0 < c) ->
  recorded_ngrams self k (sequence w ++ [s]).
Proof.
  intros [WL WE] Rec New pre window x post E L.
  destruct (snoc_cases post) as [->|[post' [y ->]]].
  - replace (pre ++ window ++ [x]) with ((pre ++ window) ++ [x]) in E
      by now rewrite <- app_assoc.
    apply app_inj_tail in E. destruct E as [E <-].
    assert (window = prefix_queue w) as ->; [|exact New].
    rewrite WE, E, <- L. symmetry. apply lastn_app_exact.
  - replace (pre ++ window ++ x :: post' ++ [y])
      with ((pre ++ window ++ x :: post') ++ [y]) in E
      by (now rewrite <- !app_assoc).
    apply app_inj_tail in E. destruct E as [E _].
    exact (Rec pre window x post' E L).
Qed.

Section Follow.
Context {F : PyFloat}.

(** A suffix the sampler returns, [None] apart, is recorded after the
    prefix, which is made of strings. *)
Lemma random_suffix_recorded (self self' : Markov) (threshhold : pyfloat)
      (prefix : list pyval) (s : pyval) :
  Valid self ->
  random_suffix threshhold prefix self = (Ok s, self') ->
  s <> VNone ->
  exists ss c,
    prefix = map VStr ss
    /\ lookup (graph self) (String.concat "" ss) s = Some c /\ 0 < c.
Proof.
  intros [_ G] H N. rewrite random_suffix_eq in H. unfold result in H.
  destruct (Z.eq_dec (Z.of_nat (length prefix)) (n self - 1)) as [L|L];
    [|rewrite get_suffixes_bad_length in H by assumption; discriminate].
  destruct (forallb is_str prefix) eqn:A;
    [|rewrite get_suffixes_not_string in H
        by (try assumption; now apply not_all_strings); discriminate].
  destruct (all_strings prefix (proj1 (forallb_forall _ _) A)) as [ss ->].
  rewrite length_map in L.
  destruct (ODict.get (String.concat "" ss) (graph self)) as [d|] eqn:D.
  - pose proof (GraphOK_get _ _ _ G D) as OK.
    rewrite (get_suffixes_seen (map VStr ss) (String.concat "" ss) d) in H;
      [|now rewrite length_map | apply join_strings | assumption
       | assumption].
    simpl in H. injection H as H _.
    destruct (scan_key_or_none threshhold fzero (distribution d)) as [E|I];
      [congruence|].
    rewrite H, keys_distribution in I.
    apply in_map_iff in I. destruct I as [[s' c] [E I]]. simpl in E. subst s'.
    exists ss, c. split; [reflexivity|]. split.
    + unfold lookup. rewrite D. apply in_get_some; [apply OK | assumption].
    + destruct OK as [_ P]. eauto.
  - rewrite (get_suffixes_unseen (map VStr ss) (String.concat "" ss)) in H;
      [|now rewrite length_map | apply join_strings | assumption].
    simpl in H. congruence.
Qed.

Lemma walk_loop_follows (self : Markov) (k : nat) (rand : nat -> pyfloat)
      (fuel i : nat) (w : walk) (out : list pyval) (self' : Markov) :
  Valid self -> (1 <= k)%nat -> Z.of_nat k = n self - 1 ->
  window_ok k w ->
  recorded_ngrams self k (sequence w) ->
  walk_loop fuel (Z.of_nat k) rand i w self = (Ok (Some out), self') ->
  recorded_ngrams self k out.
Proof.
  intros V K KN. revert i w.
  induction fuel as [|fuel IH]; intros i w W Rec H; simpl in H.
  - discriminate.
  - unfold bind in H. rewrite walk_step_eq in H.
    destruct (result (random_suffix (rand i) (prefix_queue w)) self)
      as [s|e] eqn:R; [|discriminate].
    apply random_suffix_result in R.
    destruct (eq_dec s (VStr "")) as [E|E].
    + injection H as <- _. apply recorded_ngrams_snoc; try assumption.
      apply (random_suffix_recorded _ _ _ _ _ V R). now subst.
    + destruct (eq_dec s VNone) as [N|N].
      * exfalso. subst s. destruct fuel as [|fuel]; simpl in H;
          [discriminate|].
        unfold bind in H. rewrite walk_step_eq in H. simpl in H.
        assert (X : random_suffix (rand (S i))
                      (deque_append (Z.of_nat k) (prefix_queue w) VNone) self
                    = (Raise TypeError, self)).
        { destruct W as [WL _].
          rewrite deque_append_full by congruence.
          apply random_suffix_not_string.
          - rewrite length_tl_snoc. lia.
          - exists VNone. split; [|reflexivity].
            destruct (prefix_queue w) as [|y q]; [simpl in WL; lia|].
            simpl. apply in_or_app. right. now left. }
        apply random_suffix_result in X. rewrite X in H. discriminate.
      * apply (IH (S i) _ (window_ok_slide k w s W)); [|exact H].
        simpl. apply recorded_ngrams_snoc; try assumption.
        exact (random_suffix_recorded _ _ _ _ _ V R N).
Qed.
End Follow.

(** X16. A walk that returns follows the graph.  On an instance that
    satisfies the class invariant, in every sequence [random_sequence]
    returns, any [n] consecutive tokens are a recorded n-gram: the first
    [n - 1] are strings and the last has a positive count under their
    concatenation.  The walk never makes up a transition. *)
Theorem walk_follows_graph {F : PyFloat} (self self' : Markov)
        (rand : nat -> pyfloat) (prefix out : list pyval) (fuel : nat) :
  valid self = true ->
  Z.of_nat (length prefix) = n self - 1 ->
  random_sequence fuel rand prefix self = (Ok (Some out), self') ->
  recorded_ngrams self (length prefix) out.
Proof.
  intros V L H. apply valid_iff in V.
  unfold random_sequence in H. revert H. run_method.
  rewrite (proj2 (Z.eqb_eq _ _) L). simpl.
  rewrite deque_init_full by lia. rewrite <- L. intros H.
  apply (walk_loop_follows self (length prefix) rand fuel 0
           (mkWalk prefix prefix) out self' V); try assumption.
  - destruct V as [O _]. lia.
  - split; simpl; [reflexivity | symmetry; apply lastn_whole].
  - intros pre window x post E Lw. simpl in E.
    apply (f_equal (@length pyval)) in E.
    rewrite !length_app in E. simpl in E. lia.
Qed.

Lemma walk_follows_graph_witness :
  recorded_ngrams a_then_end 1 [VStr "a"; VStr ""].
Proof.
  exact (walk_follows_graph (F := Py64) a_then_end a_then_end
           (fun _ => 0.5%float) [VStr "a"] [VStr "a"; VStr ""] 3
           eq_refl eq_refl eq_refl).
Defined.
